(** * type-bridge: schema adapters, normalizer, dependency analysis
      and TypeScript generator

    A shallow embedding of the JavaScript sources

      - [src/core/normalizer.js]
      - [src/parsers/prisma-parser.js], [src/parsers/mongoose-parser.js]
      - [src/generators/typescript-generator.js]
      - [src/core/generator.js]

    Dynamically typed data is a [value]; the objects the sources use as
    structs (fields, models, enum definitions, option bags) are records
    whose attributes are [value]s; a JavaScript exception is the [Throw]
    outcome of a [result]; strings are sequences of code units. *)

From Stdlib Require Import String Ascii List ZArith Bool Arith Lia.
From Stdlib Require Import DecimalString.
Import ListNotations.

Set Warnings "-register-all".

Local Open Scope string_scope.
Local Open Scope list_scope.

(** String concatenation; [++] is kept for lists. *)
Infix "+++" := String.append (at level 60, right associativity).

(* ================================================================== *)
(** * JavaScript values *)
(* ================================================================== *)

(** Numbers are the integer-valued ones that a Number holds exactly
    (below 2^53 in absolute value), which are printed digit by digit; a
    function is known by its [name] property and its source text (what
    [String(f)] gives); the properties of an object are listed in
    enumeration order. *)
Inductive value : Type :=
| VUndefined
| VNull
| VBool (b : bool)
| VNum (n : Z)
| VStr (s : string)
| VFun (fname : string) (src : string)
| VArr (elems : list value)
| VObj (props : list (string * value)).

(** A location that holds a typed payload, [null] or nothing at all. *)
Inductive nullable (A : Type) : Type :=
| Undefined
| Null
| Val (a : A).
Arguments Undefined {A}.
Arguments Null {A}.
Arguments Val {A} a.

(** A thrown error: a [TypeError] of the engine, [new Error(msg)], or
    [new Error(prefix + cause.message)]. *)
Inductive exn : Type :=
| TypeError
| Error (msg : string)
| ErrorFrom (prefix : string) (cause : exn).

Inductive result (A : Type) : Type :=
| Ok (a : A)
| Throw (e : exn).
Arguments Ok {A} a.
Arguments Throw {A} e.

Definition bind {A B : Type} (r : result A) (k : A -> result B) : result B :=
  match r with
  | Ok a => k a
  | Throw e => Throw e
  end.

Notation "x <- r ;; k" := (bind r (fun x => k))
  (at level 61, r at next level, right associativity).

(** Sequencing over a list, stopping at the first exception
    ([Array.prototype.map] with a callback that may throw). *)
Fixpoint mapM {A B : Type} (f : A -> result B) (l : list A) : result (list B) :=
  match l with
  | [] => Ok []
  | a :: t => b <- f a ;; bs <- mapM f t ;; Ok (b :: bs)
  end.

(** ** Truthiness and the short-circuit operators *)

Definition truthy (v : value) : bool :=
  match v with
  | VUndefined | VNull => false
  | VBool b => b
  | VNum n => negb (n =? 0)%Z
  | VStr s => negb (s =? "")
  | VFun _ _ | VArr _ | VObj _ => true
  end.

(** [a || b] *)
Definition or_else (a b : value) : value := if truthy a then a else b.

(** [a && b] *)
Definition and_then (a b : value) : value := if truthy a then b else a.

(** Truthiness of a typed location: arrays and objects are truthy. *)
Definition present {A : Type} (x : nullable A) : bool :=
  match x with
  | Val _ => true
  | _ => false
  end.

(** [x || null] on a typed location. *)
Definition or_null {A : Type} (x : nullable A) : nullable A :=
  match x with
  | Val a => Val a
  | _ => Null
  end.

(** A destructuring default, [{ k = d } = options]: only [undefined]
    is replaced. *)
Definition default_to (d v : value) : value :=
  match v with
  | VUndefined => d
  | _ => v
  end.

(** ** Strict equality

    [===] (and the SameValueZero comparison of [Set], [Map] and
    [includes], which differs from it on NaN only).  Primitives compare
    by value, and on them the comparison is that of the code.
    Functions, arrays and objects compare by identity in JavaScript;
    the embedding has no identities and identifies two of them when
    they have the same structure, so a [value] stands for a heap in
    which equal content means the same object.  The names the adapters
    produce are strings; a statement that counts the elements of a set
    says that it is about primitive names. *)
Fixpoint strict_eq (a b : value) : bool :=
  match a, b with
  | VUndefined, VUndefined => true
  | VNull, VNull => true
  | VBool x, VBool y => Bool.eqb x y
  | VNum x, VNum y => (x =? y)%Z
  | VStr x, VStr y => (x =? y)
  | VFun n s, VFun n' s' => (n =? n') && (s =? s')
  | VArr l, VArr l' =>
      (fix all2 (l l' : list value) : bool :=
         match l, l' with
         | [], [] => true
         | x :: t, y :: t' => strict_eq x y && all2 t t'
         | _, _ => false
         end) l l'
  | VObj p, VObj p' =>
      (fix all2 (p p' : list (string * value)) : bool :=
         match p, p' with
         | [], [] => true
         | (k, x) :: t, (k', y) :: t' => (k =? k') && strict_eq x y && all2 t t'
         | _, _ => false
         end) p p'
  | _, _ => false
  end.

(** [arr.includes(x)] *)
Definition includes_value (arr : list value) (x : value) : bool :=
  existsb (fun y => strict_eq y x) arr.

(** ** Property access *)

Fixpoint assoc (k : string) (ps : list (string * value)) : option value :=
  match ps with
  | [] => None
  | (k', v) :: t => if k =? k' then Some v else assoc k t
  end.

Definition native (fname : string) : value :=
  VFun fname ("function " +++ fname +++ "() { [native code] }").

(** What a plain object inherits from [Object.prototype]. *)
Definition Object_prototype (k : string) : value :=
  if k =? "constructor" then native "Object"
  else if existsb (String.eqb k)
       ["toString"; "toLocaleString"; "valueOf"; "hasOwnProperty";
        "isPrototypeOf"; "propertyIsEnumerable"; "__defineGetter__";
        "__defineSetter__"; "__lookupGetter__"; "__lookupSetter__"]
  then native k
  else if k =? "__proto__" then VObj []
  else VUndefined.

(** [obj[k]] on a plain object: own property first, then the prototype. *)
Definition lookup (ps : list (string * value)) (k : string) : value :=
  match assoc k ps with
  | Some v => v
  | None => Object_prototype k
  end.

(** [v.k] for the property names the sources read on values of unknown
    type: [type], [ref], [enum], [default], [required], [unique],
    [isRequired], [name] and [length].  Reading a property of
    [undefined] or [null] throws; a primitive, an array or a function
    has none of these names but the ones given here. *)
Definition get (v : value) (k : string) : result value :=
  match v with
  | VUndefined | VNull => Throw TypeError
  | VObj ps => Ok (lookup ps k)
  | VFun n _ => Ok (if k =? "name" then VStr n else VUndefined)
  | VArr l =>
      Ok (if k =? "length" then VNum (Z.of_nat (List.length l))
          else VUndefined)
  | VStr s =>
      Ok (if k =? "length" then VNum (Z.of_nat (String.length s))
          else VUndefined)
  | VBool _ | VNum _ => Ok VUndefined
  end.

(** ['k' in obj] for a plain object: own or inherited. *)
Definition has_property (ps : list (string * value)) (k : string) : bool :=
  match assoc k ps with
  | Some _ => true
  | None => negb (strict_eq (Object_prototype k) VUndefined)
  end.

(** ** Conversion to string, as a template literal does it *)

Definition string_of_Z (n : Z) : string :=
  NilZero.string_of_int (Z.to_int n).

Fixpoint join (sep : string) (l : list string) : string :=
  match l with
  | [] => ""
  | [x] => x
  | x :: t => x +++ sep +++ join sep t
  end.

(** [String(v)], as template literals and [join] apply it.  A number
    prints all its digits, as the code does for the integers in the
    range of [value]. *)
Fixpoint toString (v : value) : string :=
  match v with
  | VUndefined => "undefined"
  | VNull => "null"
  | VBool true => "true"
  | VBool false => "false"
  | VNum n => string_of_Z n
  | VStr s => s
  | VFun _ src => src
  | VArr l =>
      join "," (map (fun x => match x with
                              | VUndefined | VNull => ""
                              | _ => toString x
                              end) l)
  | VObj _ => "[object Object]"
  end.

(** [arr.join(sep)] on an array of values. *)
Definition join_values (sep : string) (l : list value) : string :=
  join sep (map (fun x => match x with
                          | VUndefined | VNull => ""
                          | _ => toString x
                          end) l).

(* ================================================================== *)
(** * Strings *)
(* ================================================================== *)

(** A string is the sequence of its code units; the embedding covers
    the code units U+0000 to U+00FF, one [ascii] each. *)

Definition code (c : ascii) : nat := nat_of_ascii c.

(** The double quote. *)
Definition dquote : string := String "034"%char "".

(** The line feed. *)
Definition LF : ascii := "010"%char.
Definition nl : string := String LF "".

(** [\s], and what [trim] removes: white space and line terminators. *)
Definition is_space (c : ascii) : bool :=
  existsb (Nat.eqb (code c)) [9; 10; 11; 12; 13; 32; 160]%nat.

(** [\w] *)
Definition is_word (c : ascii) : bool :=
  let n := code c in
  ((48 <=? n) && (n <=? 57) || (65 <=? n) && (n <=? 90) ||
   (97 <=? n) && (n <=? 122) || (n =? 95))%nat.

(** What [.] does not match. *)
Definition is_line_terminator (c : ascii) : bool :=
  ((code c =? 10) || (code c =? 13))%nat.

(** The longest prefix whose characters satisfy [p], and the rest. *)
Fixpoint span (p : ascii -> bool) (s : string) : string * string :=
  match s with
  | String c r =>
      if p c then let (a, b) := span p r in (String c a, b) else ("", s)
  | EmptyString => ("", "")
  end.

Fixpoint exists_char (p : ascii -> bool) (s : string) : bool :=
  match s with
  | String c r => p c || exists_char p r
  | EmptyString => false
  end.

Definition trimStart (s : string) : string := snd (span is_space s).

Fixpoint trimEnd (s : string) : string :=
  match s with
  | String c r =>
      let r' := trimEnd r in
      if is_space c && (r' =? "") then "" else String c r'
  | EmptyString => ""
  end.

Definition trim (s : string) : string := trimEnd (trimStart s).

Definition startsWith (s p : string) : bool := prefix p s.

Fixpoint endsWith (s suffix : string) : bool :=
  (s =? suffix) ||
  match s with
  | String _ r => endsWith r suffix
  | EmptyString => false
  end.

(** [s.includes(needle)] *)
Fixpoint includes (s needle : string) : bool :=
  prefix needle s ||
  match s with
  | String _ r => includes r needle
  | EmptyString => false
  end.

(** [s.slice(0, -2)] *)
Definition slice_0_minus2 (s : string) : string :=
  substring 0 (String.length s - 2) s.

(** [s.split('\n')] *)
Fixpoint split_lines (s : string) : list string :=
  match s with
  | EmptyString => [""]
  | String c r =>
      if Ascii.eqb c LF then "" :: split_lines r
      else match split_lines r with
           | l :: t => String c l :: t
           | [] => [String c ""]
           end
  end.

(** [arr.slice(1, -1)] *)
Definition slice_1_minus1 {A : Type} (l : list A) : list A :=
  removelast (tl l).

(* ================================================================== *)
(** * Data model *)
(* ================================================================== *)

(** A field object.  An attribute the object does not have reads as
    [VUndefined].  [nested] is missing, [null] or an array of fields. *)
Inductive field : Type := mkField {
  name : value;
  type : value;
  required : value;
  isPrimary : value;
  isArray : value;
  arrayOf : value;
  isEnum : value;
  enumValues : value;
  isReference : value;
  referenceTo : value;
  defaultValue : value;
  description : value;
  nested : nullable (list field);
  isUnique : value;
  isEnumArray : value;
  isSelfReference : value
}.

(** A model object; [fields] is missing, [null] or an array of fields. *)
Record model : Type := mkModel {
  modelName : value;
  tableName : value;
  fields : nullable (list field);
  modelDescription : value;
  source : value;
  filePath : value
}.

(** An enum definition [{name, values, type}]. *)
Record enumDef : Type := mkEnum {
  enumName : value;
  values : value;
  enumType : value
}.

(* ================================================================== *)
(** * core/normalizer.js *)
(* ================================================================== *)

Module STANDARD_TYPES.
Definition STRING := "string".
Definition NUMBER := "number".
Definition BOOLEAN := "boolean".
Definition DATE := "Date".
Definition ARRAY := "array".
Definition OBJECT := "object".
Definition ANY := "any".
Definition NULL := "null".
Definition UNDEFINED := "undefined".
End STANDARD_TYPES.

Definition normalizeField (f : field) : field :=
  {| name := name f;
     type := or_else (type f) (VStr STANDARD_TYPES.ANY);
     required := VBool (negb (strict_eq (required f) (VBool false)));
     isPrimary := or_else (isPrimary f) (VBool false);
     isArray := or_else (isArray f) (VBool false);
     arrayOf := or_else (arrayOf f) VNull;
     isEnum := or_else (isEnum f) (VBool false);
     enumValues := or_else (enumValues f) VNull;
     isReference := or_else (isReference f) (VBool false);
     referenceTo := or_else (referenceTo f) VNull;
     defaultValue := or_else (defaultValue f) VNull;
     description := or_else (description f) VNull;
     nested := or_null (nested f);
     isUnique := VUndefined;
     isEnumArray := VUndefined;
     isSelfReference := VUndefined |}.

Definition normalizeModel (m : model) : model :=
  {| modelName := modelName m;
     tableName := or_else (tableName m) (modelName m);
     fields := Val (map normalizeField
                        (match fields m with Val l => l | _ => [] end));
     modelDescription := or_else (modelDescription m) VNull;
     source := or_else (source m) (VStr "unknown");
     filePath := or_else (filePath m) VNull |}.

Record validation : Type := mkValidation {
  valid : bool;
  errors : list string
}.

(** The two checks [validateSchema] makes on the field at [index]. *)
Definition field_errors (index : nat) (f : field) : list string :=
  (if truthy (name f) then []
   else ["Field at index " +++ string_of_Z (Z.of_nat index) +++
         " must have a name"]) ++
  (if truthy (type f) then []
   else ["Field " +++ dquote +++ toString (name f) +++ dquote +++
         " must have a type"]).

Fixpoint fields_errors (index : nat) (fs : list field) : list string :=
  match fs with
  | [] => []
  | f :: t => field_errors index f ++ fields_errors (S index) t
  end.

Definition validateSchema (schema : model) : validation :=
  let errors :=
    (if truthy (modelName schema) then [] else ["Model must have a name"]) ++
    (if present (fields schema) then [] else ["Model must have fields array"]) ++
    (match fields schema with
     | Val fs => fields_errors 0 fs
     | _ => []
     end) in
  {| valid := (List.length errors =? 0)%nat; errors := errors |}.

(** ** Cycle detection *)

(** [modelMap.get(k)] for [modelMap = new Map(models.map(m =>
    [m.modelName, m]))]: of two models with one name the later wins. *)
Definition modelMap_get (models : list model) (k : value) : option model :=
  find (fun m => strict_eq (modelName m) k) (rev models).

(** [field.isReference && field.referenceTo] as a condition. *)
Definition is_reference_field (f : field) : bool :=
  truthy (and_then (isReference f) (referenceTo f)).

(** The loop of [hasCycle] over the fields of the target model: [call]
    is the nested call on a reference target; the first call that
    returns [true] ends the loop. *)
Fixpoint reference_loop
    (call : value -> list string -> option (result (bool * list string)))
    (fs : list field) (acc : list string)
    : option (result (bool * list string)) :=
  match fs with
  | [] => Some (Ok (false, acc))
  | f :: rest =>
      if is_reference_field f then
        match call (referenceTo f) acc with
        | Some (Ok (false, acc')) => reference_loop call rest acc'
        | r => r
        end
      else reference_loop call rest acc
  end.

(** The inner function [hasCycle].  [circularPaths] is the array of the
    enclosing function, threaded through; the result is [None] when
    [fuel] nested calls were not enough. *)
Fixpoint hasCycle (fuel : nat) (models : list model)
    (currentModel targetModel : value) (path : list value)
    (circularPaths : list string) : option (result (bool * list string)) :=
  match fuel with
  | O => None
  | S fuel' =>
      if strict_eq currentModel targetModel && (List.length path =? 0)%nat
      then Some (Ok (false, circularPaths))
      else if includes_value path targetModel
      then Some (Ok (true, circularPaths ++
                           [join_values " -> " (path ++ [targetModel])]))
      else
        match modelMap_get models targetModel with
        | None => Some (Ok (false, circularPaths))
        | Some m =>
            let newPath := path ++ [targetModel] in
            match fields m with
            | Val fs =>
                reference_loop
                  (fun target acc =>
                     hasCycle fuel' models targetModel target newPath acc)
                  fs circularPaths
            | _ => Some (Throw TypeError)
            end
        end
  end.

(** The loop over the fields of one model in [detectCircularReferences]. *)
Fixpoint check_fields (fuel : nat) (models : list model) (m : model)
    (fs : list field) (acc : list string) : option (result (list string)) :=
  match fs with
  | [] => Some (Ok acc)
  | f :: rest =>
      if is_reference_field f then
        match hasCycle fuel models (modelName m) (referenceTo f)
                [modelName m] acc with
        | Some (Ok (_, acc')) => check_fields fuel models m rest acc'
        | Some (Throw e) => Some (Throw e)
        | None => None
        end
      else check_fields fuel models m rest acc
  end.

(** The loop over the models. *)
Fixpoint check_models (fuel : nat) (models : list model)
    (ms : list model) (acc : list string) : option (result (list string)) :=
  match ms with
  | [] => Some (Ok acc)
  | m :: rest =>
      match fields m with
      | Val fs =>
          match check_fields fuel models m fs acc with
          | Some (Ok acc') => check_models fuel models rest acc'
          | r => r
          end
      | _ => Some (Throw TypeError)
      end
  end.

(** [[...new Set(l)]]: the first occurrence of each string, in order. *)
Fixpoint unique (l : list string) : list string :=
  match l with
  | [] => []
  | x :: t => x :: filter (fun y => negb (y =? x)) (unique t)
  end.

Record circularReport : Type := mkReport {
  hasCircular : bool;
  circularPaths : list string
}.

(** [detectCircularReferences]; a path holds distinct model names, so
    as many nested calls as there are models are enough
    ([check_models_fuel_enough] below) and the last case never arises. *)
Definition detectCircularReferences (models : list model)
    : result circularReport :=
  match check_models (List.length models) models models [] with
  | Some (Ok paths) =>
      Ok {| hasCircular := (0 <? List.length paths)%nat;
            circularPaths := unique paths |}
  | Some (Throw e) => Throw e
  | None => Throw TypeError
  end.

(** ** Self-reference marking *)

Definition markSelfReference (m : model) (f : field) : field :=
  if truthy (isReference f) && strict_eq (referenceTo f) (modelName m)
  then {| name := name f; type := type f; required := required f;
          isPrimary := isPrimary f; isArray := isArray f;
          arrayOf := arrayOf f; isEnum := isEnum f;
          enumValues := enumValues f; isReference := isReference f;
          referenceTo := referenceTo f; defaultValue := defaultValue f;
          description := description f; nested := nested f;
          isUnique := isUnique f; isEnumArray := isEnumArray f;
          isSelfReference := VBool true |}
  else f.

Definition markSelfReferences (models : list model) : result (list model) :=
  mapM (fun m =>
          match fields m with
          | Val fs =>
              Ok {| modelName := modelName m; tableName := tableName m;
                    fields := Val (map (markSelfReference m) fs);
                    modelDescription := modelDescription m;
                    source := source m; filePath := filePath m |}
          | _ => Throw TypeError
          end) models.

(* ================================================================== *)
(** * parsers/prisma-parser.js *)
(* ================================================================== *)

Definition PRISMA_TYPE_MAP : list (string * value) :=
  [("String", VStr STANDARD_TYPES.STRING);
   ("Int", VStr STANDARD_TYPES.NUMBER);
   ("Float", VStr STANDARD_TYPES.NUMBER);
   ("Boolean", VStr STANDARD_TYPES.BOOLEAN);
   ("DateTime", VStr STANDARD_TYPES.DATE);
   ("Json", VStr "Record<string, unknown>");
   ("Bytes", VStr STANDARD_TYPES.STRING);
   ("Decimal", VStr STANDARD_TYPES.NUMBER);
   ("BigInt", VStr STANDARD_TYPES.NUMBER)].

(** A character of the class [[\w[\]]]. *)
Definition is_type_char (c : ascii) : bool :=
  is_word c || Ascii.eqb c "["%char || Ascii.eqb c "]"%char.

Record fieldMatch : Type := mkFieldMatch {
  fm_name : string;
  fm_typeStr : string;
  fm_optional : bool;
  fm_attributes : string
}.

(** The match of the field pattern on a line: a run of [\w], a run of
    [\s], a run of word characters and square brackets, an optional
    question mark, then the rest of the line as the attributes.  Each
    run is followed by a character outside its class, so only the
    longest one can match; the rest matches when it has no line
    terminator, and giving characters back to it cannot help when it
    has one. *)
Definition match_field (line : string) : option fieldMatch :=
  let (name, r1) := span is_word line in
  let (ws, r2) := span is_space r1 in
  let (typeStr, r3) := span is_type_char r2 in
  if (name =? "") || (ws =? "") || (typeStr =? "") then None
  else
    let (optional, attributes) :=
      match r3 with
      | String "?"%char r4 => (true, r4)
      | _ => (false, r3)
      end in
    if exists_char is_line_terminator attributes then None
    else Some {| fm_name := name; fm_typeStr := typeStr;
                 fm_optional := optional; fm_attributes := attributes |}.

Definition not_close_paren (c : ascii) : bool :=
  negb (Ascii.eqb c ")"%char).

(** The default-value pattern on the attributes: [@default], an
    opening parenthesis, one or more characters other than a closing
    parenthesis, a closing parenthesis.  The result is the group of the
    leftmost match. *)
Fixpoint match_default (attributes : string) : option string :=
  let here :=
    if prefix "@default(" attributes then
      let (arg, r) := span not_close_paren
                        (substring 9 (String.length attributes) attributes) in
      match r with
      | String _ _ => if arg =? "" then None else Some arg
      | EmptyString => None
      end
    else None in
  match here with
  | Some arg => Some arg
  | None =>
      match attributes with
      | String _ r => match_default r
      | EmptyString => None
      end
  end.

Definition parseField (line : string) : option field :=
  let line := trim line in
  if (line =? "") || startsWith line "//" || startsWith line "@@" then None
  else
    match match_field line with
    | None => None
    | Some fm =>
        let typeStr := fm_typeStr fm in
        let attributes := fm_attributes fm in
        let isArray := endsWith typeStr "[]" in
        let baseType := if isArray then slice_0_minus2 typeStr else typeStr in
        let mappedType :=
          or_else (lookup PRISMA_TYPE_MAP baseType) (VStr baseType) in
        let isPrimary := includes attributes "@id" in
        let isUnique := includes attributes "@unique" in
        let defaultValue :=
          match match_default attributes with
          | Some d => VStr d
          | None => VNull
          end in
        let isReference :=
          negb (truthy (lookup PRISMA_TYPE_MAP baseType)) && negb isArray in
        Some {| name := VStr (fm_name fm);
                type := if isArray then VStr STANDARD_TYPES.ARRAY
                        else mappedType;
                required := VBool (negb (fm_optional fm) && negb isPrimary);
                isPrimary := VBool isPrimary;
                isArray := VBool isArray;
                arrayOf := if isArray then mappedType else VNull;
                isEnum := VUndefined;
                enumValues := VUndefined;
                isReference := VBool isReference;
                referenceTo := if isReference then VStr baseType else VNull;
                defaultValue := defaultValue;
                description := VUndefined;
                nested := Undefined;
                isUnique := VBool isUnique;
                isEnumArray := VUndefined;
                isSelfReference := VUndefined |}
    end.

(** The name pattern for a keyword [kw]: the keyword, a run of [\s],
    a run of [\w]; the result is the group (the name) of the leftmost
    match. *)
Fixpoint match_keyword_name (kw : string) (s : string) : option string :=
  let here :=
    if prefix kw s then
      let (ws, r1) := span is_space
                        (substring (String.length kw) (String.length s) s) in
      let (name, _) := span is_word r1 in
      if (ws =? "") || (name =? "") then None else Some name
    else None in
  match here with
  | Some name => Some name
  | None =>
      match s with
      | String _ r => match_keyword_name kw r
      | EmptyString => None
      end
  end.

Fixpoint filter_some {A : Type} (l : list (option A)) : list A :=
  match l with
  | [] => []
  | Some a :: t => a :: filter_some t
  | None :: t => filter_some t
  end.

Definition parseModel (modelBlock : string) (filePath : value)
    : option model :=
  let lines := split_lines modelBlock in
  match match_keyword_name "model" (hd "" lines) with
  | None => None
  | Some modelName =>
      let fields := filter_some (map parseField (slice_1_minus1 lines)) in
      Some (normalizeModel
              {| modelName := VStr modelName;
                 tableName := VUndefined;
                 fields := Val fields;
                 modelDescription := VUndefined;
                 source := VStr "prisma";
                 filePath := filePath |})
  end.

Definition parseEnum (enumBlock : string) : option enumDef :=
  match match_keyword_name "enum" enumBlock with
  | None => None
  | Some name =>
      let values :=
        filter (fun trimmed =>
                  negb (trimmed =? "") && negb (startsWith trimmed "//") &&
                  negb (startsWith trimmed "enum") &&
                  negb (includes trimmed "{") && negb (includes trimmed "}"))
               (map trim (split_lines enumBlock)) in
      Some {| enumName := VStr name;
              values := VArr (map VStr values);
              enumType := VStr "enum" |}
  end.

(** ** Block location *)

(** The lazy part of the block pattern: the text up to and including
    the first closing brace, and what follows it. *)
Fixpoint upto_close_brace (s : string) : option (string * string) :=
  match s with
  | EmptyString => None
  | String c r =>
      if Ascii.eqb c "}"%char then Some (String c "", r)
      else match upto_close_brace r with
           | Some (b, rest) => Some (String c b, rest)
           | None => None
           end
  end.

(** A match of the block pattern at the start of [s]: the keyword, a
    run of [\s], a run of [\w], optional [\s], an opening brace, then
    lazily anything up to a closing brace.  The result is the matched
    text and what follows it. *)
Definition match_block_here (kw : string) (s : string)
    : option (string * string) :=
  if prefix kw s then
    let r0 := substring (String.length kw) (String.length s) s in
    let (ws, r1) := span is_space r0 in
    let (name, r2) := span is_word r1 in
    let (ws', r3) := span is_space r2 in
    if (ws =? "") || (name =? "") then None
    else
      match r3 with
      | String "{"%char r4 =>
          match upto_close_brace r4 with
          | Some (body, rest) =>
              Some (kw +++ ws +++ name +++ ws' +++ "{" +++ body, rest)
          | None => None
          end
      | _ => None
      end
  else None.

(** All matches of the block pattern in [content] (the global match,
    with the empty array for no match): from left to right, each search
    resuming where the last match ended.  [fuel] bounds the number of
    positions tried. *)
Fixpoint match_blocks (fuel : nat) (kw : string) (s : string) : list string :=
  match fuel with
  | O => []
  | S fuel' =>
      match match_block_here kw s with
      | Some (block, rest) => block :: match_blocks fuel' kw rest
      | None =>
          match s with
          | String _ r => match_blocks fuel' kw r
          | EmptyString => []
          end
      end
  end.

(** What a parse gives: [{ models, enums }]. *)
Record parsed : Type := mkParsed {
  models : list model;
  enums : list enumDef
}.

(** [parsePrismaSchema], from the content of the schema file on. *)
Definition parsePrismaContent (content : string) (schemaPath : value)
    : parsed :=
  let modelBlocks := match_blocks (S (String.length content)) "model" content in
  let enumBlocks := match_blocks (S (String.length content)) "enum" content in
  {| models := filter_some (map (fun block => parseModel block schemaPath)
                                modelBlocks);
     enums := filter_some (map parseEnum enumBlocks) |}.

(* ================================================================== *)
(** * parsers/mongoose-parser.js *)
(* ================================================================== *)

Definition MONGOOSE_TYPE_MAP : list (string * value) :=
  [("String", VStr STANDARD_TYPES.STRING);
   ("Number", VStr STANDARD_TYPES.NUMBER);
   ("Boolean", VStr STANDARD_TYPES.BOOLEAN);
   ("Date", VStr STANDARD_TYPES.DATE);
   ("Buffer", VStr STANDARD_TYPES.STRING);
   ("ObjectId", VStr STANDARD_TYPES.STRING);
   ("Mixed", VStr "Record<string, any>");
   ("Decimal128", VStr STANDARD_TYPES.NUMBER);
   ("Map", VStr STANDARD_TYPES.OBJECT);
   ("Schema.Types.String", VStr STANDARD_TYPES.STRING);
   ("Schema.Types.Number", VStr STANDARD_TYPES.NUMBER);
   ("Schema.Types.Boolean", VStr STANDARD_TYPES.BOOLEAN);
   ("Schema.Types.Date", VStr STANDARD_TYPES.DATE);
   ("Schema.Types.ObjectId", VStr STANDARD_TYPES.STRING);
   ("Schema.Types.Mixed", VStr "Record<string, any>");
   ("Schema.Types.Decimal128", VStr STANDARD_TYPES.NUMBER);
   ("Schema.Types.Map", VStr STANDARD_TYPES.OBJECT)].

(** What [extractFieldType] returns; a key the returned object does
    not have is [VUndefined]. *)
Record typeInfo : Type := mkTypeInfo {
  ti_type : value;
  ti_isArray : value;
  ti_arrayOf : value;
  ti_isReference : value;
  ti_referenceTo : value;
  ti_isEnum : value;
  ti_enumValues : value
}.

Definition plainType (t : value) : typeInfo :=
  {| ti_type := t; ti_isArray := VUndefined; ti_arrayOf := VUndefined;
     ti_isReference := VBool false; ti_referenceTo := VUndefined;
     ti_isEnum := VUndefined; ti_enumValues := VUndefined |}.

(** [f] applied to the own property [k] of an object, if it has one. *)
Definition assoc_with {B : Type} (f : value -> B) (k : string)
    : list (string * value) -> option B :=
  fix go (ps : list (string * value)) : option B :=
    match ps with
    | [] => None
    | (k', v) :: t => if k =? k' then Some (f v) else go t
    end.

(** [typeof v === 'object'], [null] included. *)
Definition typeof_object (v : value) : bool :=
  match v with
  | VNull | VArr _ | VObj _ => true
  | _ => false
  end.

Fixpoint extractFieldType (fieldDef : value) : typeInfo :=
  match fieldDef with
  | VArr [] =>
      {| ti_type := VStr STANDARD_TYPES.ARRAY; ti_isArray := VBool true;
         ti_arrayOf := VStr STANDARD_TYPES.ANY;
         ti_isReference := VUndefined; ti_referenceTo := VUndefined;
         ti_isEnum := VUndefined; ti_enumValues := VUndefined |}
  | VArr (first :: _) =>
      let innerType := extractFieldType first in
      {| ti_type := VStr STANDARD_TYPES.ARRAY; ti_isArray := VBool true;
         ti_arrayOf := ti_type innerType;
         ti_isReference := ti_isReference innerType;
         ti_referenceTo := ti_referenceTo innerType;
         ti_isEnum := VUndefined; ti_enumValues := VUndefined |}
  | VObj props =>
      (* fieldDef.type, when it is truthy, with the result of the
         recursive call on it *)
      match assoc_with (fun t => (truthy t, extractFieldType t))
                       "type" props with
      | Some (true, info) =>
          if truthy (lookup props "ref") then
            {| ti_type := ti_type info; ti_isArray := ti_isArray info;
               ti_arrayOf := ti_arrayOf info;
               ti_isReference := VBool true;
               ti_referenceTo := lookup props "ref";
               ti_isEnum := ti_isEnum info;
               ti_enumValues := ti_enumValues info |}
          else info
      | _ =>
          if truthy (lookup props "enum") then
            {| ti_type := VStr STANDARD_TYPES.STRING;
               ti_isArray := VUndefined; ti_arrayOf := VUndefined;
               ti_isReference := VUndefined; ti_referenceTo := VUndefined;
               ti_isEnum := VBool true;
               ti_enumValues := lookup props "enum" |}
          else plainType (VStr STANDARD_TYPES.ANY)
      end
  | VFun typeName _ =>
      plainType (or_else (lookup MONGOOSE_TYPE_MAP typeName)
                         (VStr STANDARD_TYPES.ANY))
  | VStr s =>
      plainType (or_else (lookup MONGOOSE_TYPE_MAP s)
                         (VStr STANDARD_TYPES.ANY))
  | VUndefined | VNull | VBool _ | VNum _ =>
      plainType (VStr STANDARD_TYPES.ANY)
  end.

(** [fieldDef && typeof fieldDef === 'object'] as a condition. *)
Definition is_object (fieldDef : value) : bool :=
  truthy fieldDef && typeof_object fieldDef.

(** [fieldDef.k] for a [fieldDef] that passed [is_object]. *)
Definition prop (fieldDef : value) (k : string) : value :=
  match fieldDef with
  | VObj props => lookup props k
  | _ => VUndefined
  end.

(** The object pushed for one entry of the schema; [nested] is the
    result of the recursive call, made when the entry is an embedded
    document. *)
Definition schemaField (fieldName : string) (fieldDef : value)
    (schemaPaths : list (string * value)) (nested : nullable (list field))
    : field :=
  let typeInfo := extractFieldType fieldDef in
  let pathInfo := lookup schemaPaths fieldName in
  let required0 :=
    if is_object fieldDef
    then strict_eq (prop fieldDef "required") (VBool true)
    else false in
  let required :=
    if truthy pathInfo &&
       truthy (match get pathInfo "isRequired" with
               | Ok v => v
               | Throw _ => VUndefined
               end)
    then true else required0 in
  let defaultValue :=
    match fieldDef with
    | VObj props =>
        if has_property props "default" then lookup props "default"
        else VNull
    | _ => VNull
    end in
  let isUnique :=
    if truthy fieldDef then
      if typeof_object fieldDef
      then VBool (strict_eq (prop fieldDef "unique") (VBool true))
      else VBool false
    else fieldDef in
  let isEnumArray := and_then (ti_isArray typeInfo) (ti_isEnum typeInfo) in
  {| name := VStr fieldName;
     type := if present nested then VStr STANDARD_TYPES.OBJECT
             else ti_type typeInfo;
     required := VBool required;
     isPrimary := VUndefined;
     isArray := or_else (ti_isArray typeInfo) (VBool false);
     arrayOf := or_else (ti_arrayOf typeInfo) VNull;
     isEnum := or_else (ti_isEnum typeInfo) (VBool false);
     enumValues := or_else (ti_enumValues typeInfo) VNull;
     isReference := or_else (ti_isReference typeInfo) (VBool false);
     referenceTo := or_else (ti_referenceTo typeInfo) VNull;
     defaultValue := defaultValue;
     description := VUndefined;
     nested := nested;
     isUnique := isUnique;
     isEnumArray := isEnumArray;
     isSelfReference := VUndefined |}.

(** [parseSchemaFields(schemaObj, schemaPaths)] for a plain object
    [schemaObj]: Mongoose's [schema.obj], or an embedded document (the
    recursive call is made on plain objects only). *)
Fixpoint parseSchemaFields (schemaObj : value)
    (schemaPaths : list (string * value)) {struct schemaObj} : list field :=
  match schemaObj with
  | VObj entries =>
      (fix each (ps : list (string * value)) : list field :=
         match ps with
         | [] => []
         | (fieldName, fieldDef) :: rest =>
             if startsWith fieldName "_" then each rest
             else
               let nested :=
                 match fieldDef with
                 | VObj props =>
                     if negb (truthy (lookup props "type")) &&
                        negb (truthy (lookup props "enum"))
                     then Val (parseSchemaFields fieldDef [])
                     else Null
                 | _ => Null
                 end in
               schemaField fieldName fieldDef schemaPaths nested :: each rest
         end) entries
  | _ => []
  end.

(** [parseMongooseModel], from the extracted [{modelName, schema}] on;
    [obj] and [paths] are [schema.obj] and [schema.paths]. *)
Definition parseMongooseModel (modelName : value) (obj : value)
    (paths : list (string * value)) (filePath : value) : model :=
  normalizeModel
    {| modelName := modelName;
       tableName := VUndefined;
       fields := Val (parseSchemaFields obj paths);
       modelDescription := VUndefined;
       source := VStr "mongoose";
       filePath := filePath |}.

(* ================================================================== *)
(** * generators/typescript-generator.js *)
(* ================================================================== *)

(** The option bag.  A key the caller did not give is [VUndefined]
    ([Undefined] for the three lists); [enumDefs] is the key [enums]. *)
Record options : Type := mkOptions {
  exportType : value;
  includeComments : value;
  readonly : value;
  standalone : value;
  allEnums : nullable (list enumDef);
  allModels : nullable (list model);
  includeHeader : value;
  banner : value;
  enumDefs : nullable (list enumDef)
}.

(** [{}] *)
Definition no_options : options :=
  {| exportType := VUndefined; includeComments := VUndefined;
     readonly := VUndefined; standalone := VUndefined;
     allEnums := Undefined; allModels := Undefined;
     includeHeader := VUndefined; banner := VUndefined;
     enumDefs := Undefined |}.

(** [v.map(x => `'${x}'`).join(" | ")]: only an array has [map]. *)
Definition literal_union (v : value) : result string :=
  match v with
  | VArr l => Ok (join " | " (map (fun x => "'" +++ toString x +++ "'") l))
  | _ => Throw TypeError
  end.

(** [fieldToTypeScript] and, for the fields of a nested object,
    [generateInlineInterface]; [allModels] is passed along and never
    read. *)
Fixpoint fieldToTypeScript (f : field) (allModels : nullable (list model))
    {struct f} : result value :=
  tsType <-
    (if truthy (and_then (isEnum f) (enumValues f)) then
       u <- literal_union (enumValues f) ;; Ok (VStr u)
     else if truthy (and_then (isArray f) (arrayOf f)) then
       if truthy (and_then (isEnumArray f) (enumValues f)) then
         enumUnion <- literal_union (enumValues f) ;;
         Ok (VStr ("(" +++ enumUnion +++ ")[]"))
       else Ok (VStr (toString (arrayOf f) +++ "[]"))
     else if truthy (and_then (isReference f) (referenceTo f)) then
       Ok (referenceTo f)
     else
       match nested f with
       | Val fs =>
           if strict_eq (type f) (VStr STANDARD_TYPES.OBJECT) then
             fieldStrings <-
               (fix each (fs : list field) : result (list string) :=
                  match fs with
                  | [] => Ok []
                  | g :: rest =>
                      let optional := if truthy (required g) then "" else "?" in
                      t <- fieldToTypeScript g allModels ;;
                      strs <- each rest ;;
                      Ok (("  " +++ toString (name g) +++ optional +++ ": "
                           +++ toString t +++ ";") :: strs)
                  end) fs ;;
             Ok (VStr ("{" +++ nl +++ join nl fieldStrings +++ nl +++ "}"))
           else Ok (type f)
       | _ => Ok (type f)
       end) ;;
  Ok (if truthy (required f) then tsType
      else VStr (toString tsType +++ " | null")).

Definition generateInlineInterface (fs : list field)
    (allModels : nullable (list model)) : result string :=
  fieldStrings <-
    mapM (fun g =>
            let optional := if truthy (required g) then "" else "?" in
            t <- fieldToTypeScript g allModels ;;
            Ok ("  " +++ toString (name g) +++ optional +++ ": "
                +++ toString t +++ ";")) fs ;;
  Ok ("{" +++ nl +++ join nl fieldStrings +++ nl +++ "}").

(** The lines [generateEnum] pushes for the values, [index] counting
    from the position of the first of them. *)
Fixpoint enum_value_lines (index len : nat) (vs : list value) : list string :=
  match vs with
  | [] => []
  | v :: rest =>
      let comma := if (index <? len - 1)%nat then "," else "" in
      ("  " +++ toString v +++ " = '" +++ toString v +++ "'" +++ comma)
        :: enum_value_lines (S index) len rest
  end.

Definition generateEnum (enumDef : enumDef) (opts : options) : result string :=
  let exportType := default_to (VStr "export") (exportType opts) in
  let includeComments := default_to (VBool true) (includeComments opts) in
  match values enumDef with
  | VArr vs =>
      Ok (join nl
            ((if truthy includeComments then ["/** Auto-generated enum */"]
              else []) ++
             [toString exportType +++ " enum " +++ toString (enumName enumDef)
              +++ " {"] ++
             enum_value_lines 0 (List.length vs) vs ++
             ["}"]))
  | _ => Throw TypeError
  end.

(** ** Dependencies of a model *)

Record dependencies : Type := mkDeps {
  dep_enums : list value;
  dep_models : list value
}.

(** [set.add(x)] on a set kept in insertion order.  Membership is
    [strict_eq]: the comparison of the code on primitive values, which
    is what the names of types and models are. *)
Definition set_add (x : value) (s : list value) : list value :=
  if includes_value s x then s else s ++ [x].

Definition primitives : list value :=
  map VStr ["string"; "number"; "boolean"; "Date"; "any"; "unknown";
            "void"; "null"; "undefined"; "array"; "object"].

(** The shared tail of the three cases: a name goes to the enums when it
    is an enum name, to the models otherwise. *)
Definition add_dependency (enumNames : list value) (x : value)
    (d : dependencies) : dependencies :=
  if includes_value enumNames x
  then {| dep_enums := set_add x (dep_enums d); dep_models := dep_models d |}
  else {| dep_enums := dep_enums d; dep_models := set_add x (dep_models d) |}.

(** The body of the [forEach] in [collectTypeDependencies]. *)
Definition collect_field (enumNames : list value) (m : model)
    (d : dependencies) (f : field) : dependencies :=
  let d1 :=
    if truthy (and_then (isArray f) (arrayOf f)) then
      if negb (includes_value primitives (arrayOf f)) &&
         negb (strict_eq (arrayOf f) (modelName m))
      then add_dependency enumNames (arrayOf f) d
      else d
    else if truthy (type f) && negb (includes_value primitives (type f)) &&
            negb (strict_eq (type f) (modelName m))
    then add_dependency enumNames (type f) d
    else d in
  if truthy (referenceTo f) && negb (strict_eq (referenceTo f) (type f)) &&
     negb (strict_eq (referenceTo f) (modelName m))
  then add_dependency enumNames (referenceTo f) d1
  else d1.

Definition collectTypeDependencies (m : model) (allEnums : list enumDef)
    : result dependencies :=
  let enumNames := fold_left (fun s e => set_add (enumName e) s) allEnums [] in
  match fields m with
  | Val fs =>
      Ok (fold_left (collect_field enumNames m) fs
                    {| dep_enums := []; dep_models := [] |})
  | _ => Throw TypeError
  end.

(** ** Interfaces *)

(** The import lines of standalone mode. *)
Definition import_lines (deps : dependencies) : list string :=
  (if (0 <? List.length (dep_enums deps))%nat
   then ["import { " +++ join_values ", " (dep_enums deps) +++
         " } from './enums';"]
   else []) ++
  map (fun modelName =>
         "import type { " +++ toString modelName +++ " } from './" +++
         toString modelName +++ "';") (dep_models deps) ++
  (if (0 <? List.length (dep_enums deps))%nat ||
      (0 <? List.length (dep_models deps))%nat
   then [""] else []).

(** The lines [generateInterface] pushes for one field. *)
Definition field_lines (includeComments readonly : value)
    (allModels : nullable (list model)) (f : field) : result (list string) :=
  let optional := if truthy (required f) then "" else "?" in
  let readonlyPrefix := if truthy readonly then "readonly " else "" in
  tsType <- fieldToTypeScript f allModels ;;
  Ok ((if truthy (and_then includeComments (description f))
       then ["  /** " +++ toString (description f) +++ " */"] else []) ++
      ["  " +++ readonlyPrefix +++ toString (name f) +++ optional +++ ": "
       +++ toString tsType +++ ";"]).

(** The array [lines] of [generateInterface] before it is joined. *)
Definition interface_lines (m : model) (opts : options)
    : result (list string) :=
  let exportType := default_to (VStr "export") (exportType opts) in
  let includeComments := default_to (VBool true) (includeComments opts) in
  let readonly := default_to (VBool false) (readonly opts) in
  let standalone := default_to (VBool false) (standalone opts) in
  imports <-
    (if truthy standalone then
       deps <- collectTypeDependencies m
                 (match allEnums opts with Val l => l | _ => [] end) ;;
       Ok (import_lines deps)
     else Ok []) ;;
  let comments :=
    (if truthy (and_then includeComments (modelDescription m))
     then ["/**"; " * " +++ toString (modelDescription m); " */"] else []) ++
    (if truthy includeComments
     then ["/** Auto-generated from " +++ toString (source m) +++ " schema */"]
     else []) in
  let declaration :=
    [toString exportType +++ " interface " +++ toString (modelName m)
     +++ " {"] in
  match fields m with
  | Val fs =>
      body <- mapM (field_lines includeComments readonly (allModels opts)) fs ;;
      Ok (imports ++ comments ++ declaration ++ concat body ++ ["}"])
  | _ => Throw TypeError
  end.

Definition generateInterface (m : model) (opts : options) : result string :=
  lines <- interface_lines m opts ;;
  Ok (join nl lines).

(** [generateTypes] of the generator module. *)
Definition generateTypes (ms : list model) (opts : options) : result string :=
  interfaces <- mapM (fun m => generateInterface m opts) ms ;;
  Ok (join (nl +++ nl) interfaces).

(** ** The complete file *)

(** What a run reads from its surroundings: the clock (the text
    [new Date().toISOString()] gives), two environment variables and
    the formatter ([prettier.format], which may throw). *)
Record environment : Type := mkEnv {
  now : string;
  JEST_WORKER_ID : value;
  TYPEBRIDGE_SKIP_FORMAT : value;
  prettier_format : string -> result string
}.

Definition formatCode (env : environment) (code : string) : string :=
  if truthy (JEST_WORKER_ID env) ||
     strict_eq (TYPEBRIDGE_SKIP_FORMAT env) (VStr "1")
  then code
  else match prettier_format env code with
       | Ok formatted => formatted
       | Throw _ => code
       end.

Definition generateTypeScriptFile (env : environment) (ms : list model)
    (opts : options) : result string :=
  let includeHeader := default_to (VBool true) (includeHeader opts) in
  let banner := default_to VNull (banner opts) in
  let header :=
    if truthy includeHeader
    then ["/**"; " * AUTO-GENERATED by type-bridge"; " * Do not edit manually";
          " * Generated: " +++ now env; " */"; ""]
    else [] in
  let bannerLines :=
    if truthy banner then ["/* " +++ toString banner +++ " */"; ""] else [] in
  enumLines <-
    match enumDefs opts with
    | Val (e :: es) =>
        enumCode <- mapM (fun e => generateEnum e opts) (e :: es) ;;
        Ok [join (nl +++ nl) enumCode; ""]
    | _ => Ok []
    end ;;
  types <- generateTypes ms opts ;;
  let code := join nl (header ++ bannerLines ++ enumLines ++ [types]) in
  Ok (formatCode env code).

Definition generateIndexFile (modelNames : list value)
    (enums : nullable (list enumDef)) : string :=
  join nl
    (["/**"; " * AUTO-GENERATED by type-bridge"; " * Type exports"; " */"; ""] ++
     (match enums with
      | Val (e :: es) =>
          ["export { " +++ join_values ", " (map enumName (e :: es)) +++
           " } from './enums';"; ""]
      | _ => []
      end) ++
     map (fun name =>
            "export type { " +++ toString name +++ " } from './" +++
            toString name +++ "';") modelNames).

(* ================================================================== *)
(** * core/generator.js *)
(* ================================================================== *)

Module Core.

(** What the writer answers: [{ success, error, ... }]. *)
Record writeResult : Type := mkWriteResult {
  success : value;
  error : value
}.

(** A model with its [generatedCode]. *)
Record generatedModel : Type := mkGenerated {
  generated_from : model;
  generatedCode : string
}.

(** A call of the writer module, which is not part of these sources. *)
Inductive writeRequest : Type :=
| WriteTypesByModel (generatedModels : list generatedModel) (outputPath : value)
| WriteSingleFile (content : string) (filePath : value).

(** The collaborators of a run: detection and file access of the two
    parsers, the path module, the writer, and what the generator reads
    from its surroundings (the clock, read once per generated file). *)
Record world : Type := mkWorld {
  cwd : value;
  detectPrisma : value -> result value;
  detectMongoose : value -> result value;
  findPrismaSchema : value -> result value;
  readFile : value -> result string;
  parseMongooseModels : value -> result (list model);
  path_join : value -> string -> result value;
  writer : writeRequest -> result writeResult;
  clock : nat -> string;
  env_JEST_WORKER_ID : value;
  env_TYPEBRIDGE_SKIP_FORMAT : value;
  prettier : string -> result string
}.

Definition environment_at (w : world) (reading : nat) : environment :=
  {| now := clock w reading;
     JEST_WORKER_ID := env_JEST_WORKER_ID w;
     TYPEBRIDGE_SKIP_FORMAT := env_TYPEBRIDGE_SKIP_FORMAT w;
     prettier_format := prettier w |}.

(** The configuration: the three keys [generateTypes] takes out of it,
    and the rest, passed on as the options ([modelsPath] is read by the
    Mongoose branch). *)
Record config : Type := mkConfig {
  projectRoot : value;
  outputPath : value;
  outputMode : value;
  modelsPath : value;
  rest : options
}.

Definition detectORM (w : world) (projectRoot : value) : result value :=
  p <- detectPrisma w projectRoot ;;
  if truthy p then Ok (VStr "prisma")
  else
    g <- detectMongoose w projectRoot ;;
    if truthy g then Ok (VStr "mongoose") else Ok VNull.

(** [parsePrismaSchema]: any error is thrown again under a prefix. *)
Definition parsePrismaSchema (w : world) (schemaPath : value) : result parsed :=
  match readFile w schemaPath with
  | Ok content => Ok (parsePrismaContent content schemaPath)
  | Throw e => Throw (ErrorFrom "Failed to parse Prisma schema: " e)
  end.

Definition parseSchemas (w : world) (orm : value) (projectRoot : value)
    (c : config) : result parsed :=
  if strict_eq orm (VStr "prisma") then
    schemaPath <- findPrismaSchema w projectRoot ;;
    if truthy schemaPath then parsePrismaSchema w schemaPath
    else Throw (Error "Prisma schema file not found")
  else if strict_eq orm (VStr "mongoose") then
    modelsPath <-
      (if truthy (modelsPath c) then Ok (modelsPath c)
       else path_join w projectRoot "models") ;;
    ms <- parseMongooseModels w modelsPath ;;
    Ok {| models := ms; enums := [] |}
  else Throw (Error ("Unsupported ORM: " +++ toString orm)).

(** One entry of [validateModels]: [{ modelName, ...validateSchema(m) }]. *)
Record modelValidation : Type := mkModelValidation {
  mv_modelName : value;
  mv_validation : validation
}.

Record validationSummary : Type := mkSummary {
  vs_valid : bool;
  vs_total : nat;
  vs_invalid : nat;
  vs_errors : list modelValidation
}.

Definition validateModels (ms : list model) : validationSummary :=
  let results :=
    map (fun m => {| mv_modelName := modelName m;
                     mv_validation := validateSchema m |}) ms in
  let invalid := filter (fun r => negb (valid (mv_validation r))) results in
  {| vs_valid := (List.length invalid =? 0)%nat;
     vs_total := List.length ms;
     vs_invalid := List.length invalid;
     vs_errors := invalid |}.

Definition generateTypesForModels (ms : list model) (opts : options)
    : result (list generatedModel) :=
  mapM (fun m =>
          code <- generateInterface m opts ;;
          Ok {| generated_from := m; generatedCode := code |}) ms.

(** The object a run resolves to. *)
Inductive runResult : Type :=
| Failed (error : string)
| ValidationFailed (validation : validationSummary)
| WriteFailed (error : value) (writeResult : writeResult)
| Caught (e : exn)
| Succeeded (orm : value) (modelsCount : nat) (outputPath : value)
    (models : list value) (generatedContent : nullable string).

(** A step of a run: a result (or an exception) and the calls made to
    the writer so far. *)
Definition run (A : Type) : Type :=
  list writeRequest -> result A * list writeRequest.

Definition pure {A : Type} (r : result A) : run A := fun log => (r, log).

Definition and_next {A B : Type} (m : run A) (k : A -> run B) : run B :=
  fun log =>
    match m log with
    | (Ok a, log') => k a log'
    | (Throw e, log') => (Throw e, log')
    end.

Notation "x <~ m ;; k" := (and_next m (fun x => k))
  (at level 61, m at next level, right associativity).

Definition write (w : world) (req : writeRequest) : run writeResult :=
  fun log => (writer w req, log ++ [req]).

Definition with_allModels (opts : options) (ms : list model) : options :=
  {| exportType := exportType opts; includeComments := includeComments opts;
     readonly := readonly opts; standalone := standalone opts;
     allEnums := allEnums opts; allModels := Val ms;
     includeHeader := includeHeader opts; banner := banner opts;
     enumDefs := enumDefs opts |}.

Definition with_enums (opts : options) (es : list enumDef) : options :=
  {| exportType := exportType opts; includeComments := includeComments opts;
     readonly := readonly opts; standalone := standalone opts;
     allEnums := allEnums opts; allModels := allModels opts;
     includeHeader := includeHeader opts; banner := banner opts;
     enumDefs := Val es |}.

(** [s.endsWith('.ts')] on the output path; only a string has the method. *)
Definition endsWith_ts (p : value) : result bool :=
  match p with
  | VStr s => Ok (endsWith s ".ts")
  | _ => Throw TypeError
  end.

(** The body of the [try] block of [generateTypes]. *)
Definition generateTypes_body (w : world) (c : config) : run runResult :=
  let projectRoot := default_to (cwd w) (projectRoot c) in
  let outputMode := default_to (VStr "single") (outputMode c) in
  let options := rest c in
  orm <~ pure (detectORM w projectRoot) ;;
  if negb (truthy orm) then
    pure (Ok (Failed
      "No supported ORM detected. Please install Prisma or Mongoose."))
  else
    parsed1 <~ pure (parseSchemas w orm projectRoot c) ;;
    parsed2 <~ pure (parseSchemas w orm projectRoot c) ;;
    let models0 := models parsed1 in
    let enums := enums parsed2 in
    if (List.length models0 =? 0)%nat then
      pure (Ok (Failed "No models found"))
    else
      _ <~ pure (detectCircularReferences models0) ;;
      models <~ pure (markSelfReferences models0) ;;
      let validation := validateModels models in
      if negb (vs_valid validation) then
        pure (Ok (ValidationFailed validation))
      else
        generatedModels <~
          pure (generateTypesForModels models (with_allModels options models)) ;;
        let finish (writeResult : writeResult) : run runResult :=
          if negb (truthy (success writeResult)) then
            pure (Ok (WriteFailed
                        (or_else (error writeResult)
                                 (VStr "Failed to write files"))
                        writeResult))
          else
            generatedContent <~
              (if strict_eq outputMode (VStr "separate") then pure (Ok Null)
               else
                 content <~ pure (generateTypeScriptFile (environment_at w 1)
                                    models (with_enums options enums)) ;;
                 pure (Ok (Val content))) ;;
            pure (Ok (Succeeded orm (List.length models) (outputPath c)
                        (map modelName models) generatedContent)) in
        if strict_eq outputMode (VStr "separate") then
          writeResult <~
            write w (WriteTypesByModel generatedModels (outputPath c)) ;;
          let indexContent := generateIndexFile (map modelName models) Undefined in
          indexPath <~ pure (path_join w (outputPath c) "index.ts") ;;
          _ <~ write w (WriteSingleFile indexContent indexPath) ;;
          finish writeResult
        else
          allTypes <~ pure (generateTypeScriptFile (environment_at w 0)
                              models (with_enums options enums)) ;;
          if negb (truthy (outputPath c)) then
            pure (Ok (Failed "outputPath is required"))
          else
            isTs <~ pure (endsWith_ts (outputPath c)) ;;
            finalOutputPath <~
              (if isTs then pure (Ok (outputPath c))
               else pure (path_join w (outputPath c) "index.ts")) ;;
            writeResult <~ write w (WriteSingleFile allTypes finalOutputPath) ;;
            finish writeResult.

(** [generateTypes(config)]: the result of the run and the calls it
    made to the writer, in order. *)
Definition generateTypes (w : world) (c : config)
    : runResult * list writeRequest :=
  match generateTypes_body w c [] with
  | (Ok r, log) => (r, log)
  | (Throw e, log) => (Caught e, log)
  end.

End Core.

(* ================================================================== *)
(** * Notions used in the statements *)
(* ================================================================== *)

(** Every model of the batch has its array of fields. *)
Definition all_fields_present (ms : list model) : Prop :=
  forallb (fun m => present (fields m)) ms = true.

(** A result that is there, and is no exception when every model of the
    batch has its fields. *)
Definition settled {A : Type} (ms : list model) (o : option (result A))
    : Prop :=
  exists r, o = Some r /\ (all_fields_present ms -> exists a, r = Ok a).

(** Two surroundings that differ in the clock at most. *)
Definition same_formatting (e1 e2 : environment) : Prop :=
  JEST_WORKER_ID e1 = JEST_WORKER_ID e2 /\
  TYPEBRIDGE_SKIP_FORMAT e1 = TYPEBRIDGE_SKIP_FORMAT e2 /\
  forall code, prettier_format e1 code = prettier_format e2 code.

(** The first reference field of a list of fields. *)
Definition first_reference (fs : list field) : option field :=
  find is_reference_field fs.

(** A reference field that is no array: [isArray && arrayOf] fails. *)
Definition singular (f : field) : bool :=
  is_reference_field f && negb (truthy (and_then (isArray f) (arrayOf f))).

(** The path [a -> b -> a]. *)
Definition there_and_back (a b : string) : string :=
  a +++ " -> " +++ b +++ " -> " +++ a.

(** The type-only import of a model. *)
Definition import_type_line (n : string) : string :=
  "import type { " +++ n +++ " } from './" +++ n +++ "';".

Definition array_or_falsy (v : value) : bool :=
  match v with
  | VArr _ => true
  | _ => negb (truthy v)
  end.

(** [enumValues], where it is set, is an array, in the field and in the
    fields nested in it: then [map] is there where the generator calls
    it. *)
Fixpoint enum_values_are_arrays (f : field) : bool :=
  array_or_falsy (enumValues f) &&
  match nested f with
  | Val fs => forallb enum_values_are_arrays fs
  | _ => true
  end.

(** No enum definition has the name [x]. *)
Definition no_enum_named (x : value) (es : nullable (list enumDef)) : Prop :=
  match es with
  | Val l => Forall (fun e => enumName e <> x) l
  | _ => True
  end.

(** The line of one field of an inline interface. *)
Definition inline_line (allModels : nullable (list model)) (g : field)
    : result string :=
  let optional := if truthy (required g) then "" else "?" in
  t <- fieldToTypeScript g allModels ;;
  Ok ("  " +++ toString (name g) +++ optional +++ ": " +++ toString t +++ ";").

(** The attributes of the normalized field [n] that the raw field [f]
    omits have their defaults, the name is kept, and [nested] is handed
    on: a missing one as [null], an array as it is. *)
Definition defaults_filled (f n : field) : Prop :=
  name n = name f /\
  (type f = VUndefined -> type n = VStr "any") /\
  (required f = VUndefined -> required n = VBool true) /\
  (isPrimary f = VUndefined -> isPrimary n = VBool false) /\
  (isArray f = VUndefined -> isArray n = VBool false) /\
  (arrayOf f = VUndefined -> arrayOf n = VNull) /\
  (isEnum f = VUndefined -> isEnum n = VBool false) /\
  (enumValues f = VUndefined -> enumValues n = VNull) /\
  (isReference f = VUndefined -> isReference n = VBool false) /\
  (referenceTo f = VUndefined -> referenceTo n = VNull) /\
  (defaultValue f = VUndefined -> defaultValue n = VNull) /\
  (description f = VUndefined -> description n = VNull) /\
  (nested f = Undefined -> nested n = Null) /\
  (forall fs, nested f = Val fs -> nested n = Val fs).

(* ================================================================== *)
(** * Sample inputs *)
(* ================================================================== *)

(** A text from its lines. *)
Definition text (lines : list string) : string := join nl lines.

(** A constructor such as [String] or [Number]. *)
Definition constructor (n : string) : value := native n.

Definition standalone_options : options :=
  {| exportType := VUndefined; includeComments := VUndefined;
     readonly := VUndefined; standalone := VBool true;
     allEnums := Undefined; allModels := Undefined;
     includeHeader := VUndefined; banner := VUndefined;
     enumDefs := Undefined |}.

(** [{ includeHeader: false }] *)
Definition no_header : options :=
  {| exportType := VUndefined; includeComments := VUndefined;
     readonly := VUndefined; standalone := VUndefined;
     allEnums := Undefined; allModels := Undefined;
     includeHeader := VBool false; banner := VUndefined;
     enumDefs := Undefined |}.

(** The primary key of the documentation's example schema. *)
Definition id_line : string := "id String @id @default(cuid())".

Definition id_schema : string :=
  text ["model User {";
        "  id String @id @default(cuid())";
        "  email String";
        "}"].

(** A Mongoose descriptor with [type], [enum] and [default]. *)
Definition role_descriptor : value :=
  VObj [("type", constructor "String");
        ("enum", VArr [VStr "x"; VStr "y"]);
        ("default", VStr "x")].

(** A model whose only reference is to itself. *)
Definition self_schema : string :=
  text ["model Category {";
        "  id Int";
        "  parent Category?";
        "}"].

(** Two models that refer to each other. *)
Definition mutual_schema : string :=
  text ["model Author {";
        "  id Int";
        "  book Book";
        "}";
        "model Book {";
        "  id Int";
        "  author Author";
        "}"].

Definition mutual_models : list model :=
  models (parsePrismaContent mutual_schema (VStr "schema.prisma")).

(** Four models: [A] and [B] refer to each other, each after a
    reference to a model that refers back to it. *)
Definition crossed_schema : string :=
  text ["model A {"; "  c C"; "  b B"; "}";
        "model B {"; "  d D"; "  a A"; "}";
        "model C {"; "  a A"; "}";
        "model D {"; "  b B"; "}"].

(** Three models: [A] and [B] refer to each other, [B] after a
    reference to a model that refers back to it. *)
Definition one_sided_schema : string :=
  text ["model A {"; "  b B"; "}";
        "model B {"; "  c C"; "  a A"; "}";
        "model C {"; "  b B"; "}"].

(** A model with a brace inside a default value:
    the second field is [data Json @default(<quote>{}<quote>)]. *)
Definition brace_schema : string :=
  text ["model Settings {";
        "  id Int";
        "  data Json @default(" +++ dquote +++ "{}" +++ dquote +++ ")";
        "  name String";
        "}"].

(** The same model with nested parentheses and no brace. *)
Definition paren_schema : string :=
  text ["model Settings {";
        "  id Int";
        "  token String @default(dbgenerated(uuid()))";
        "  name String";
        "}"].

(** A Mongoose array of references, as in the parser's header comment:
    [posts: [{ type: Schema.Types.ObjectId, ref: 'Post' }]]. *)
Definition posts_definition : value :=
  VArr [VObj [("type", VStr "Schema.Types.ObjectId"); ("ref", VStr "Post")]].

(** A raw field with only a name and a type. *)
Definition bare_field (n t : string) : field :=
  {| name := VStr n; type := VStr t; required := VUndefined;
     isPrimary := VUndefined; isArray := VUndefined; arrayOf := VUndefined;
     isEnum := VUndefined; enumValues := VUndefined;
     isReference := VUndefined; referenceTo := VUndefined;
     defaultValue := VUndefined; description := VUndefined;
     nested := Undefined; isUnique := VUndefined;
     isEnumArray := VUndefined; isSelfReference := VUndefined |}.

(** The nested field of the normalizer's test:
    [{ name: 'profile', type: 'object', nested: [{ name: 'bio', type: 'string' }] }]. *)
Definition profile_field : field :=
  {| name := VStr "profile"; type := VStr "object"; required := VUndefined;
     isPrimary := VUndefined; isArray := VUndefined; arrayOf := VUndefined;
     isEnum := VUndefined; enumValues := VUndefined;
     isReference := VUndefined; referenceTo := VUndefined;
     defaultValue := VUndefined; description := VUndefined;
     nested := Val [bare_field "bio" "string"]; isUnique := VUndefined;
     isEnumArray := VUndefined; isSelfReference := VUndefined |}.

(** A raw model with the field [profile_field] and nothing else. *)
Definition profile_model : model :=
  {| modelName := VStr "User"; tableName := VUndefined;
     fields := Val [profile_field]; modelDescription := VUndefined;
     source := VUndefined; filePath := VUndefined |}.

Definition morning : environment :=
  {| now := "2025-11-03T08:00:00.000Z"; JEST_WORKER_ID := VStr "1";
     TYPEBRIDGE_SKIP_FORMAT := VUndefined; prettier_format := fun s => Ok s |}.

Definition evening : environment :=
  {| now := "2025-11-03T20:00:00.000Z"; JEST_WORKER_ID := VStr "1";
     TYPEBRIDGE_SKIP_FORMAT := VUndefined; prettier_format := fun s => Ok s |}.

Definition no_model : model :=
  mkModel VUndefined VUndefined Undefined VUndefined VUndefined VUndefined.

Definition fields_of (m : model) : list field :=
  match fields m with
  | Val fs => fs
  | _ => []
  end.

(** The field of the line [posts Post[]]. *)
Definition posts_field : field :=
  Eval vm_compute in
    match parseField "posts Post[]" with
    | Some f => f
    | None => profile_field
    end.

(** The first model of [mutual_schema] as the adapter gives it, and
    its reference field. *)
Definition author_model : model :=
  Eval vm_compute in nth 0 mutual_models no_model.

Definition author_book : field :=
  Eval vm_compute in nth 1 (fields_of author_model) profile_field.

(** A project with a Prisma schema that declares no model, and a writer
    that would accept anything. *)
Definition empty_project : Core.world :=
  {| Core.cwd := VStr "/project";
     Core.detectPrisma := fun _ => Ok (VBool true);
     Core.detectMongoose := fun _ => Ok (VBool false);
     Core.findPrismaSchema := fun _ => Ok (VStr "/project/schema.prisma");
     Core.readFile := fun _ => Ok (text ["// nothing yet"; ""]);
     Core.parseMongooseModels := fun _ => Ok [];
     Core.path_join := fun p s => Ok (VStr (toString p +++ "/" +++ s));
     Core.writer := fun _ => Ok {| Core.success := VBool true;
                                   Core.error := VUndefined |};
     Core.clock := fun _ => "2025-11-03T08:00:00.000Z";
     Core.env_JEST_WORKER_ID := VUndefined;
     Core.env_TYPEBRIDGE_SKIP_FORMAT := VUndefined;
     Core.prettier := fun code => Ok code |}.

Definition types_config : Core.config :=
  {| Core.projectRoot := VUndefined;
     Core.outputPath := VStr "./types";
     Core.outputMode := VUndefined;
     Core.modelsPath := VUndefined;
     Core.rest := no_options |}.

(* ================================================================== *)

(** * Further notions and sample inputs *)

(* ================================================================== *)

(** The model [markSelfReferences] makes of one model. *)
Definition marked (m : model) (fs : list field) : model :=
  {| modelName := modelName m; tableName := tableName m;
     fields := Val (map (markSelfReference m) fs);
     modelDescription := modelDescription m;
     source := source m; filePath := filePath m |}.

(** Distinct model names of the batch, then one of them again. *)
Definition closed_walk (ms : list model) (p : string) : Prop :=
  exists path target,
    p = join_values " -> " (path ++ [target]) /\
    NoDup path /\
    incl path (map modelName ms) /\
    In target path.

(** No reference field of [m] has a target among the models. *)
Definition references_lead_out (ms : list model) (m : model) : Prop :=
  Forall (fun f => is_reference_field f = true ->
                   modelMap_get ms (referenceTo f) = None) (fields_of m).

(** Every character of the string passes the test. *)
Fixpoint all_chars (p : ascii -> bool) (s : string) : bool :=
  match s with
  | String c r => p c && all_chars p r
  | EmptyString => true
  end.

(** The character that ends a block. *)
Definition is_close_brace (c : ascii) : bool := Ascii.eqb c "}"%char.

(** What the two sets hold while the fields are gone through: no name
    twice, enum names in the one and other names in the other, and
    never the name of the model itself. *)
Definition dependencies_in_order (enumNames : list value) (m : model)
    (d : dependencies) : Prop :=
  NoDup (dep_enums d) /\ NoDup (dep_models d) /\
  (forall x, In x (dep_enums d) ->
             In x enumNames /\ strict_eq x (modelName m) = false) /\
  (forall x, In x (dep_models d) ->
             ~ In x enumNames /\ strict_eq x (modelName m) = false).

(** The field with another value of [required]. *)
Definition with_required (v : value) (f : field) : field :=
  {| name := name f; type := type f; required := v;
     isPrimary := isPrimary f; isArray := isArray f; arrayOf := arrayOf f;
     isEnum := isEnum f; enumValues := enumValues f;
     isReference := isReference f; referenceTo := referenceTo f;
     defaultValue := defaultValue f; description := description f;
     nested := nested f; isUnique := isUnique f;
     isEnumArray := isEnumArray f; isSelfReference := isSelfReference f |}.

(** The run ended in the report of a failed validation. *)
Definition validation_failed (r : Core.runResult) : bool :=
  match r with
  | Core.ValidationFailed _ => true
  | _ => false
  end.

(** The model of [self_schema] as the adapter gives it, and after the
    marking. *)
Definition category_models : list model :=
  Eval vm_compute in
    models (parsePrismaContent self_schema (VStr "schema.prisma")).

Definition category_marked : list model :=
  Eval vm_compute in
    match markSelfReferences category_models with
    | Ok ms => ms
    | Throw _ => []
    end.

(** The field of the line [parent Category?], as [parseField] gives
    it. *)
Definition category_parent_raw : field :=
  Eval vm_compute in
    match parseField "  parent Category?" with
    | Some f => f
    | None => profile_field
    end.

(** A model named [Post], for the field of the line [posts Post[]]. *)
Definition post_model : model :=
  {| modelName := VStr "Post"; tableName := VStr "Post";
     fields := Val [normalizeField posts_field];
     modelDescription := VNull; source := VStr "prisma";
     filePath := VStr "schema.prisma" |}.

(** A model that refers to a model the schema does not declare. *)
Definition orphan_models : list model :=
  Eval vm_compute in
    models (parsePrismaContent
              (text ["model Post {"; "  id Int"; "  author User"; "}"])
              (VStr "schema.prisma")).

(** The field of [posts_definition] as the Mongoose adapter gives it. *)
Definition posts_mongoose_field : field :=
  Eval vm_compute in
    nth 0 (parseSchemaFields (VObj [("posts", posts_definition)]) [])
        profile_field.

(** The dependencies of [author_model]. *)
Definition author_dependencies : dependencies :=
  Eval vm_compute in
    match collectTypeDependencies author_model [] with
    | Ok d => d
    | Throw _ => {| dep_enums := []; dep_models := [] |}
    end.

(** A project with the schema of two models, where nothing is
    formatted and the writer accepts anything, and what a run on it
    reports and writes. *)
Definition blog_project : Core.world :=
  {| Core.cwd := VStr "/project";
     Core.detectPrisma := fun _ => Ok (VBool true);
     Core.detectMongoose := fun _ => Ok (VBool false);
     Core.findPrismaSchema := fun _ => Ok (VStr "/project/schema.prisma");
     Core.readFile := fun _ => Ok mutual_schema;
     Core.parseMongooseModels := fun _ => Ok [];
     Core.path_join := fun p s => Ok (VStr (toString p +++ "/" +++ s));
     Core.writer := fun _ => Ok {| Core.success := VBool true;
                                   Core.error := VUndefined |};
     Core.clock := fun _ => "2025-11-03T08:00:00.000Z";
     Core.env_JEST_WORKER_ID := VStr "1";
     Core.env_TYPEBRIDGE_SKIP_FORMAT := VUndefined;
     Core.prettier := fun s => Ok s |}.

Definition blog_text : string :=
  Eval vm_compute in
    match fst (Core.generateTypes blog_project types_config) with
    | Core.Succeeded _ _ _ _ (Val t) => t
    | _ => ""
    end.

Definition blog_log : list Core.writeRequest :=
  Eval vm_compute in snd (Core.generateTypes blog_project types_config).

(** A primitive value: neither a function nor an array nor an object.
    On these [strict_eq] is the comparison of the code. *)
Definition is_primitive (v : value) : bool :=
  match v with
  | VFun _ _ | VArr _ | VObj _ => false
  | _ => true
  end.

(** The names a field can contribute to the dependencies are
    primitive values, as the strings of the adapters are. *)
Definition primitive_names (f : field) : bool :=
  is_primitive (type f) && is_primitive (arrayOf f) &&
  is_primitive (referenceTo f).

(** An import line of standalone mode, or the blank line after them. *)
Definition is_import_line (l : string) : bool :=
  prefix "import " l || (l =? "").

(** A line of a documentation comment. *)
Definition is_comment_line (l : string) : bool :=
  prefix "/**" l || prefix " *" l.

(** What holds of every type information the Mongoose adapter makes:
    it has a type; what is an array has the type [array] and an element
    type; what is an enum has the type [string] and its values; and it
    is a reference exactly when it has a target. *)
Definition well_formed (i : typeInfo) : Prop :=
  truthy (ti_type i) = true /\
  (truthy (ti_isArray i) = true ->
   ti_type i = VStr "array" /\ truthy (ti_arrayOf i) = true) /\
  (truthy (ti_isEnum i) = true ->
   ti_type i = VStr "string" /\ truthy (ti_enumValues i) = true) /\
  (truthy (ti_isReference i) = true <-> truthy (ti_referenceTo i) = true).

(* ================================================================== *)
(** * Properties of the embedding *)
(* ================================================================== *)

(** ** The short-circuit operators *)

Lemma or_else_idempotent (a d : value) :
  or_else (or_else a d) d = or_else a d.
Proof.
  unfold or_else. destruct (truthy a) eqn:Ha.
  - now rewrite Ha.
  - now destruct (truthy d).
Qed.

Lemma or_null_idempotent {A : Type} (x : nullable A) :
  or_null (or_null x) = or_null x.
Proof. now destruct x. Qed.

Lemma not_false_idempotent (v : value) :
  negb (strict_eq (VBool (negb (strict_eq v (VBool false)))) (VBool false))
  = negb (strict_eq v (VBool false)).
Proof. now destruct (strict_eq v (VBool false)). Qed.

(** ** Normalization *)

Lemma normalizeField_idempotent (f : field) :
  normalizeField (normalizeField f) = normalizeField f.
Proof.
  unfold normalizeField; cbn [name type required isPrimary isArray arrayOf
    isEnum enumValues isReference referenceTo defaultValue description nested].
  now rewrite !or_else_idempotent, not_false_idempotent, or_null_idempotent.
Qed.

Lemma map_normalizeField_idempotent (fs : list field) :
  map normalizeField (map normalizeField fs) = map normalizeField fs.
Proof.
  induction fs as [|f fs IH]; cbn [map].
  - reflexivity.
  - now rewrite normalizeField_idempotent, IH.
Qed.

Lemma normalizeModel_idempotent (m : model) :
  normalizeModel (normalizeModel m) = normalizeModel m.
Proof.
  unfold normalizeModel;
    cbn [modelName tableName fields modelDescription source filePath].
  now rewrite !or_else_idempotent, map_normalizeField_idempotent.
Qed.

(** C8.  Normalization is idempotent: normalizing a normalized model
    gives the same model, and normalizing a normalized field gives the
    same field, whatever the raw model and the raw field are. *)
Theorem normalize_idempotent (m : model) (f : field) :
  normalizeModel (normalizeModel m) = normalizeModel m /\
  normalizeField (normalizeField f) = normalizeField f.
Proof.
  split.
  - apply normalizeModel_idempotent.
  - apply normalizeField_idempotent.
Qed.

(** What [normalizeField] does to one field. *)
Lemma normalizeField_defaults (f : field) :
  defaults_filled f (normalizeField f).
Proof.
  unfold defaults_filled, normalizeField;
    cbn [name type required isPrimary isArray arrayOf isEnum enumValues
         isReference referenceTo defaultValue description nested].
  repeat split; intros; try (rewrite H; reflexivity).
Qed.

(** C10, as the code has it.  [normalizeModel] gives a model its array
    of fields, one for each raw field and in the same order, in which
    each attribute that the raw field omits has its default; the fields
    inside [nested] are handed on as they are, and a missing [nested]
    becomes [null]. *)
Theorem normalizeModel_fills_defaults (m : model) :
  exists ns,
    fields (normalizeModel m) = Val ns /\
    Forall2 defaults_filled (fields_of m) ns.
Proof.
  exists (map normalizeField (fields_of m)). split; [reflexivity|].
  induction (fields_of m) as [|f fs IH]; cbn [map]; constructor;
    [apply normalizeField_defaults|exact IH].
Qed.

(** The model with the one field [profile]. *)
Lemma normalizeModel_fills_defaults_witness :
  exists ns,
    fields (normalizeModel profile_model) = Val ns /\
    Forall2 defaults_filled (fields_of profile_model) ns.
Proof. apply (normalizeModel_fills_defaults profile_model). Defined.

(** C10, as the claim has it, fails: after normalization the field
    [bio] inside [profile] has no [required] attribute, where the
    default would be [true], and normalizing it would change it. *)
Lemma nested_fields_not_normalized :
  nested (normalizeField profile_field) = Val [bare_field "bio" "string"] /\
  required (bare_field "bio" "string") = VUndefined /\
  required (normalizeField (bare_field "bio" "string")) = VBool true.
Proof. repeat split; vm_compute; reflexivity. Qed.

(** ** The Prisma adapter *)

(** A primary key is never required, whatever else the line holds. *)
Lemma parseField_primary_not_required (line : string) (f : field) :
  parseField line = Some f ->
  isPrimary f = VBool true ->
  required (normalizeField f) = VBool false.
Proof.
  unfold parseField.
  destruct ((trim line =? "") || startsWith (trim line) "//"
            || startsWith (trim line) "@@"); [discriminate|].
  destruct (match_field (trim line)) as [fm|]; [|discriminate].
  intros H; injection H as <-. cbn [isPrimary required normalizeField].
  intros H; injection H as ->.
  now rewrite andb_false_r.
Qed.

(** C1, on the code.  The line [id String @id @default(cuid())] parses
    to a primary key that is not required, and the interface of the
    model shows the field with the optional marker and the null union. *)
Theorem prisma_id_rendered_optional :
  option_map (fun f => (isPrimary f, required (normalizeField f)))
             (parseField id_line)
    = Some (VBool true, VBool false) /\
  map (fun m => generateInterface m no_options)
      (models (parsePrismaContent id_schema (VStr "schema.prisma")))
    = [Ok (text ["/** Auto-generated from prisma schema */";
                 "export interface User {";
                 "  id?: string | null;";
                 "  email: string;";
                 "}"])].
Proof. split; vm_compute; reflexivity. Qed.

(** C5, on the code.  A block ends at the first closing brace: with a
    brace inside a default value the block of [Settings] stops there,
    and the model comes out with its first field only, where it has
    three.  Nested parentheses alone do no harm. *)
Theorem prisma_block_cut_at_first_brace :
  match_blocks (S (String.length brace_schema)) "model" brace_schema =
    [text ["model Settings {";
           "  id Int";
           "  data Json @default(" +++ dquote +++ "{}"]] /\
  map (fun m => match fields m with
                | Val fs => map name fs
                | _ => []
                end)
      (models (parsePrismaContent brace_schema (VStr "schema.prisma")))
    = [[VStr "id"]] /\
  map (fun m => match fields m with
                | Val fs => map name fs
                | _ => []
                end)
      (models (parsePrismaContent paren_schema (VStr "schema.prisma")))
    = [[VStr "id"; VStr "token"; VStr "name"]].
Proof. repeat split; vm_compute; reflexivity. Qed.

(** ** The Mongoose adapter *)

(** C2, on the code.  A descriptor with [type] and [enum] is resolved
    through its [type]: the enum branch is not reached, the field is a
    plain string, and it is rendered as [string], not as a union. *)
Theorem mongoose_enum_descriptor_is_plain_string :
  ti_isEnum (extractFieldType role_descriptor) = VUndefined /\
  ti_type (extractFieldType role_descriptor) = VStr "string" /\
  map (fun f => (isEnum f, enumValues f, fieldToTypeScript f Undefined))
      (fields_of (parseMongooseModel (VStr "User")
                    (VObj [("role", role_descriptor)]) [] (VStr "User.js")))
    = [(VBool false, VNull, Ok (VStr "string | null"))] /\
  generateInterface
    (parseMongooseModel (VStr "User") (VObj [("role", role_descriptor)]) []
                        (VStr "User.js")) no_options
    = Ok (text ["/** Auto-generated from mongoose schema */";
                "export interface User {";
                "  role?: string | null;";
                "}"]).
Proof. repeat split; vm_compute; reflexivity. Qed.

(** ** Cycle detection on the samples *)

(** C3, on the code.  The top-level call starts with the model itself on
    the path, so a field that refers to its own model is found on the
    path and reported. *)
Theorem self_loop_is_reported :
  detectCircularReferences
    (models (parsePrismaContent self_schema (VStr "schema.prisma")))
  = Ok {| hasCircular := true;
          circularPaths := ["Category -> Category"] |}.
Proof. vm_compute. reflexivity. Qed.

(** ** Arrays and references *)

Lemma assoc_with_assoc {B : Type} (f : value -> B) (k : string)
    (ps : list (string * value)) :
  assoc_with f k ps = option_map f (assoc k ps).
Proof.
  induction ps as [|[k' v] ps IH]; cbn.
  - reflexivity.
  - now destruct (k =? k').
Qed.


Lemma parseField_array_not_reference (line : string) (f : field) :
  parseField line = Some f ->
  truthy (isArray (normalizeField f)) = true ->
  isReference (normalizeField f) = VBool false /\
  referenceTo (normalizeField f) = VNull.
Proof.
  unfold parseField.
  destruct ((trim line =? "") || startsWith (trim line) "//"
            || startsWith (trim line) "@@"); [discriminate|].
  destruct (match_field (trim line)) as [fm|]; [|discriminate].
  intros H; injection H as <-.
  cbn [isArray isReference referenceTo normalizeField].
  destruct (endsWith (fm_typeStr fm) "[]"); cbn; [|discriminate].
  intros _. now rewrite andb_false_r.
Qed.





(** ** Rendering and the surroundings *)

Lemma formatCode_same (e1 e2 : environment) (code : string) :
  same_formatting e1 e2 -> formatCode e1 code = formatCode e2 code.
Proof.
  intros (Hj & Hs & Hp). unfold formatCode. now rewrite Hj, Hs, Hp.
Qed.

(** C7, as the code has it.  An interface is a function of the model
    and the options; the complete file reads the clock for the
    [Generated:] line of its header and nothing else, so two runs give
    the same text when the header is off or the clock reads the same. *)
Theorem rendering_deterministic_up_to_header
    (e1 e2 : environment) (ms : list model) (opts : options) :
  same_formatting e1 e2 ->
  truthy (default_to (VBool true) (includeHeader opts)) = false \/
  now e1 = now e2 ->
  generateTypeScriptFile e1 ms opts = generateTypeScriptFile e2 ms opts.
Proof.
  intros Hfmt Hclock. unfold generateTypeScriptFile.
  assert (Hheader :
    (if truthy (default_to (VBool true) (includeHeader opts))
     then ["/**"; " * AUTO-GENERATED by type-bridge"; " * Do not edit manually";
           " * Generated: " +++ now e1; " */"; ""] else []) =
    (if truthy (default_to (VBool true) (includeHeader opts))
     then ["/**"; " * AUTO-GENERATED by type-bridge"; " * Do not edit manually";
           " * Generated: " +++ now e2; " */"; ""] else [])).
  { destruct Hclock as [Hoff | Hsame].
    - now rewrite Hoff.
    - now rewrite Hsame. }
  rewrite Hheader.
  destruct (match enumDefs opts with
            | Val (e :: es) =>
                enumCode <- mapM (fun e0 => generateEnum e0 opts) (e :: es) ;;
                Ok [join (nl +++ nl) enumCode; ""]
            | _ => Ok []
            end) as [enumLines|]; cbn [bind]; [|reflexivity].
  destruct (generateTypes ms opts) as [types|]; cbn [bind]; [|reflexivity].
  f_equal. now apply formatCode_same.
Qed.

Lemma rendering_deterministic_up_to_header_witness :
  generateTypeScriptFile morning mutual_models no_header
  = generateTypeScriptFile evening mutual_models no_header.
Proof.
  apply rendering_deterministic_up_to_header.
  - repeat split.
  - left. vm_compute. reflexivity.
Defined.

(** C7, as the claim has it, fails: the same models and the same
    options give two different files at two different times. *)
Lemma header_carries_the_time :
  generateTypeScriptFile morning [] no_options
    = Ok (text ["/**"; " * AUTO-GENERATED by type-bridge";
                " * Do not edit manually";
                " * Generated: 2025-11-03T08:00:00.000Z"; " */"; ""; ""]) /\
  generateTypeScriptFile evening [] no_options
    = Ok (text ["/**"; " * AUTO-GENERATED by type-bridge";
                " * Do not edit manually";
                " * Generated: 2025-11-03T20:00:00.000Z"; " */"; ""; ""]) /\
  match generateTypeScriptFile morning [] no_options,
        generateTypeScriptFile evening [] no_options with
  | Ok morning_file, Ok evening_file => (morning_file =? evening_file)
  | _, _ => true
  end = false.
Proof. repeat split; vm_compute; reflexivity. Qed.

(** ** Strict equality is equality of structure *)

Section value_induction.
Variable P : value -> Prop.
Hypothesis Hundefined : P VUndefined.
Hypothesis Hnull : P VNull.
Hypothesis Hbool : forall b, P (VBool b).
Hypothesis Hnum : forall n, P (VNum n).
Hypothesis Hstr : forall s, P (VStr s).
Hypothesis Hfun : forall n s, P (VFun n s).
Hypothesis Harr : forall l, Forall P l -> P (VArr l).
Hypothesis Hobj : forall ps, Forall (fun kv => P (snd kv)) ps -> P (VObj ps).

Fixpoint value_nested_ind (v : value) : P v :=
  match v with
  | VUndefined => Hundefined
  | VNull => Hnull
  | VBool b => Hbool b
  | VNum n => Hnum n
  | VStr s => Hstr s
  | VFun n s => Hfun n s
  | VArr l =>
      Harr l ((fix all (l : list value) : Forall P l :=
                 match l with
                 | [] => Forall_nil P
                 | x :: t => Forall_cons x (value_nested_ind x) (all t)
                 end) l)
  | VObj ps =>
      Hobj ps ((fix all (ps : list (string * value))
                  : Forall (fun kv => P (snd kv)) ps :=
                  match ps with
                  | [] => Forall_nil _
                  | kv :: t => Forall_cons kv (value_nested_ind (snd kv)) (all t)
                  end) ps)
  end.
End value_induction.

Lemma strict_eq_spec (a b : value) : strict_eq a b = true <-> a = b.
Proof.
  revert b. induction a as [| |x|x|x|n s|l IH|ps IH] using value_nested_ind;
    intros [| |y|y|y|n' s'|l'|ps']; cbn [strict_eq];
    try (split; [discriminate|discriminate]);
    try (split; reflexivity).
  - rewrite Bool.eqb_true_iff. split; [intros ->; reflexivity|intros H; now injection H].
  - rewrite Z.eqb_eq. split; [intros ->; reflexivity|intros H; now injection H].
  - rewrite String.eqb_eq. split; [intros ->; reflexivity|intros H; now injection H].
  - rewrite andb_true_iff, !String.eqb_eq.
    split; [intros [-> ->]; reflexivity|intros H; now injection H].
  - revert l'. induction IH as [|x l Hx _ IHl]; intros [|y l'];
      try (split; [discriminate|discriminate]); [split; reflexivity|].
    rewrite andb_true_iff, Hx. split.
    + intros [-> H]. apply IHl in H. injection H as ->. reflexivity.
    + intros H; injection H as -> ->. split; [reflexivity|]. now apply IHl.
  - revert ps'. induction IH as [|[k x] ps Hx _ IHps]; intros [|[k' y] ps'];
      try (split; [discriminate|discriminate]); [split; reflexivity|].
    cbn [snd] in Hx.
    rewrite !andb_true_iff, Hx, String.eqb_eq. split.
    + intros [[-> ->] H]. apply IHps in H. injection H as ->. reflexivity.
    + intros H; injection H as -> -> ->. repeat split. now apply IHps.
Qed.

Lemma strict_eq_refl (a : value) : strict_eq a a = true.
Proof. now apply strict_eq_spec. Qed.

Lemma includes_value_In (l : list value) (x : value) :
  includes_value l x = true <-> In x l.
Proof.
  unfold includes_value. rewrite existsb_exists. split.
  - intros (y & Hy & E). apply strict_eq_spec in E. now subst.
  - intros H. exists x. split; [assumption|apply strict_eq_refl].
Qed.

Lemma modelMap_get_Some (ms : list model) (k : value) (m : model) :
  modelMap_get ms k = Some m -> In m ms /\ modelName m = k.
Proof.
  unfold modelMap_get. intros H. apply find_some in H as [Hin E].
  apply in_rev in Hin. apply strict_eq_spec in E. now split.
Qed.

(** ** Cycle detection: the nested calls come to an end *)

Section fuel.
Variable ms : list model.

Lemma reference_loop_settled
    (call : value -> list string -> option (result (bool * list string)))
    (fs : list field) :
  (forall target acc, settled ms (call target acc)) ->
  forall acc, settled ms (reference_loop call fs acc).
Proof.
  intros Hcall. induction fs as [|f fs IH]; intros acc; cbn [reference_loop].
  - eexists. split; [reflexivity|]. intros _. now eexists.
  - destruct (is_reference_field f); [|apply IH].
    destruct (Hcall (referenceTo f) acc) as (r & -> & Hr).
    destruct r as [[[|] acc']|e].
    + exists (Ok (true, acc')). split; [reflexivity|]. intros _. now eexists.
    + apply IH.
    + exists (Throw e). split; [reflexivity|assumption].
Qed.

Lemma path_is_short (path : list value) :
  NoDup path -> incl path (map modelName ms) ->
  List.length path <= List.length ms.
Proof.
  intros Hnd Hincl. rewrite <- (length_map modelName ms).
  now apply NoDup_incl_length.
Qed.

Lemma hasCycle_settled (fuel : nat) :
  forall (currentModel targetModel : value) (path : list value)
         (acc : list string),
    NoDup path -> incl path (map modelName ms) ->
    List.length ms < fuel + List.length path ->
    settled ms (hasCycle fuel ms currentModel targetModel path acc).
Proof.
  induction fuel as [|fuel IH]; intros cur tgt path acc Hnd Hincl Hfuel.
  - apply path_is_short in Hincl; [lia|assumption].
  - cbn [hasCycle].
    destruct (strict_eq cur tgt && (List.length path =? 0)%nat).
    { eexists. split; [reflexivity|]. intros _. now eexists. }
    destruct (includes_value path tgt) eqn:Hseen.
    { eexists. split; [reflexivity|]. intros _. now eexists. }
    destruct (modelMap_get ms tgt) as [m|] eqn:Hget.
    2:{ eexists. split; [reflexivity|]. intros _. now eexists. }
    apply modelMap_get_Some in Hget as [Hin Hname].
    destruct (fields m) as [| |fs] eqn:Hfields.
    1,2: exists (Throw TypeError); split; [reflexivity|]; intros Hall;
      unfold all_fields_present in Hall; rewrite forallb_forall in Hall;
      specialize (Hall m Hin); rewrite Hfields in Hall; discriminate.
    apply reference_loop_settled. intros target acc'. apply IH.
    + apply NoDup_app; [assumption|repeat constructor; intros []|].
      intros x Hx [<-|[]].
      apply includes_value_In in Hx. congruence.
    + intros x Hx. apply in_app_or in Hx as [Hx|[<-|[]]].
      * now apply Hincl.
      * subst tgt. now apply in_map.
    + rewrite length_app. cbn [List.length]. lia.
Qed.

Lemma check_fields_settled (m : model) (fs : list field) :
  In m ms ->
  forall acc, settled ms (check_fields (List.length ms) ms m fs acc).
Proof.
  intros Hin. induction fs as [|f fs IH]; intros acc; cbn [check_fields].
  - eexists. split; [reflexivity|]. intros _. now eexists.
  - destruct (is_reference_field f); [|apply IH].
    destruct (hasCycle_settled (List.length ms) (modelName m) (referenceTo f)
                [modelName m] acc) as (r & -> & Hr).
    + repeat constructor. intros [].
    + intros x [<-|[]]. now apply in_map.
    + cbn [List.length]. lia.
    + destruct r as [[b acc']|e].
      * apply IH.
      * exists (Throw e). split; [reflexivity|].
        intros Hall. destruct (Hr Hall) as [a Ha]. discriminate.
Qed.

Lemma check_models_settled (rest : list model) :
  incl rest ms ->
  forall acc, settled ms (check_models (List.length ms) ms rest acc).
Proof.
  induction rest as [|m rest IH]; intros Hincl acc; cbn [check_models].
  - eexists. split; [reflexivity|]. intros _. now eexists.
  - assert (Hin : In m ms) by (apply Hincl; now left).
    destruct (fields m) as [| |fs] eqn:Hfields.
    1,2: exists (Throw TypeError); split; [reflexivity|]; intros Hall;
      unfold all_fields_present in Hall; rewrite forallb_forall in Hall;
      specialize (Hall m Hin); rewrite Hfields in Hall; discriminate.
    destruct (check_fields_settled m fs Hin acc) as (r & -> & Hr).
    destruct r as [acc'|e].
    + apply IH. intros x Hx. apply Hincl. now right.
    + exists (Throw e). split; [reflexivity|assumption].
Qed.

(** As many nested calls as there are models are enough. *)
Lemma check_models_fuel_enough :
  check_models (List.length ms) ms ms [] <> None.
Proof.
  destruct (check_models_settled ms (incl_refl ms) []) as (r & -> & _).
  discriminate.
Qed.

(** On models that have their fields, the detection gives a report:
    the paths pushed, without repeats. *)
Lemma detectCircularReferences_report :
  all_fields_present ms ->
  exists paths,
    check_models (List.length ms) ms ms [] = Some (Ok paths) /\
    detectCircularReferences ms =
      Ok {| hasCircular := (0 <? List.length paths)%nat;
            circularPaths := unique paths |}.
Proof.
  intros Hall.
  destruct (check_models_settled ms (incl_refl ms) []) as (r & E & Hr).
  destruct (Hr Hall) as [paths ->]. exists paths. split; [assumption|].
  unfold detectCircularReferences. now rewrite E.
Qed.
End fuel.

(** ** Cycle detection: what is pushed stays *)

Lemma reference_loop_grows
    (call : value -> list string -> option (result (bool * list string)))
    (fs : list field) :
  (forall target acc b acc',
      call target acc = Some (Ok (b, acc')) -> incl acc acc') ->
  forall acc b acc',
    reference_loop call fs acc = Some (Ok (b, acc')) -> incl acc acc'.
Proof.
  intros Hcall. induction fs as [|f fs IH]; intros acc b acc'; cbn [reference_loop].
  - intros H; injection H as _ <-. apply incl_refl.
  - destruct (is_reference_field f); [|apply IH].
    destruct (call (referenceTo f) acc) as [[[[|] acc1]|e]|] eqn:E;
      try discriminate.
    + intros H; injection H as _ <-. eapply Hcall, E.
    + intros H. eapply incl_tran; [eapply Hcall, E|eapply IH, H].
Qed.

Lemma hasCycle_grows (ms : list model) (fuel : nat) :
  forall currentModel targetModel path acc b acc',
    hasCycle fuel ms currentModel targetModel path acc = Some (Ok (b, acc')) ->
    incl acc acc'.
Proof.
  induction fuel as [|fuel IH]; intros cur tgt path acc b acc'; cbn [hasCycle].
  - discriminate.
  - destruct (strict_eq cur tgt && (List.length path =? 0)%nat).
    { intros H; injection H as _ <-. apply incl_refl. }
    destruct (includes_value path tgt).
    { intros H; injection H as _ <-. now apply incl_appl, incl_refl. }
    destruct (modelMap_get ms tgt) as [m|].
    2:{ intros H; injection H as _ <-. apply incl_refl. }
    destruct (fields m) as [| |fs]; try discriminate.
    apply reference_loop_grows. intros target acc0 b0 acc1. apply IH.
Qed.

Lemma check_fields_grows (ms : list model) (fuel : nat) (m : model)
    (fs : list field) :
  forall acc acc',
    check_fields fuel ms m fs acc = Some (Ok acc') -> incl acc acc'.
Proof.
  induction fs as [|f fs IH]; intros acc acc'; cbn [check_fields].
  - intros H; injection H as <-. apply incl_refl.
  - destruct (is_reference_field f); [|apply IH].
    destruct (hasCycle fuel ms (modelName m) (referenceTo f) [modelName m] acc)
      as [[[b acc1]|e]|] eqn:E; try discriminate.
    intros H. eapply incl_tran; [eapply hasCycle_grows, E|eapply IH, H].
Qed.

Lemma check_models_grows (ms : list model) (fuel : nat) (rest : list model) :
  forall acc acc',
    check_models fuel ms rest acc = Some (Ok acc') -> incl acc acc'.
Proof.
  induction rest as [|m rest IH]; intros acc acc'; cbn [check_models].
  - intros H; injection H as <-. apply incl_refl.
  - destruct (fields m) as [| |fs]; try discriminate.
    destruct (check_fields fuel ms m fs acc) as [[acc1|e]|] eqn:E;
      try discriminate.
    intros H. eapply incl_tran; [eapply check_fields_grows, E|eapply IH, H].
Qed.

(** A path that the call for one reference field pushes is among the
    paths of the whole run. *)
Lemma check_fields_contains (ms : list model) (fuel : nat) (m : model)
    (f : field) (p : string) (fs : list field) :
  In f fs -> is_reference_field f = true ->
  (forall acc, hasCycle fuel ms (modelName m) (referenceTo f) [modelName m] acc
               = Some (Ok (true, acc ++ [p]))) ->
  forall acc acc',
    check_fields fuel ms m fs acc = Some (Ok acc') -> In p acc'.
Proof.
  intros Hin Href Hcall.
  induction fs as [|g fs IH]; intros acc acc'; [destruct Hin|].
  cbn [check_fields]. destruct Hin as [->|Hin].
  - rewrite Href, Hcall. intros H. apply check_fields_grows in H.
    apply H, in_or_app. right. now left.
  - destruct (is_reference_field g); [|now apply IH].
    destruct (hasCycle fuel ms (modelName m) (referenceTo g) [modelName m] acc)
      as [[[b acc1]|e]|]; try discriminate.
    now apply IH.
Qed.

Lemma check_models_contains (ms : list model) (fuel : nat) (m : model)
    (fs : list field) (f : field) (p : string) (rest : list model) :
  In m rest -> fields m = Val fs ->
  In f fs -> is_reference_field f = true ->
  (forall acc, hasCycle fuel ms (modelName m) (referenceTo f) [modelName m] acc
               = Some (Ok (true, acc ++ [p]))) ->
  forall acc acc',
    check_models fuel ms rest acc = Some (Ok acc') -> In p acc'.
Proof.
  intros Hin Hfields Hf Href Hcall.
  induction rest as [|m' rest IH]; intros acc acc'; [destruct Hin|].
  cbn [check_models]. destruct Hin as [->|Hin].
  - rewrite Hfields.
    destruct (check_fields fuel ms m fs acc) as [[acc1|e]|] eqn:E;
      try discriminate.
    intros H. apply check_models_grows in H. apply H.
    eapply check_fields_contains; eassumption.
  - destruct (fields m') as [| |fs']; try discriminate.
    destruct (check_fields fuel ms m' fs' acc) as [[acc1|e]|];
      try discriminate.
    now apply IH.
Qed.

Lemma In_unique (x : string) (l : list string) : In x l -> In x (unique l).
Proof.
  induction l as [|y l IH]; [intros []|]. cbn [unique]. intros [->|Hin].
  - now left.
  - destruct (String.eqb_spec x y) as [->|Hne]; [now left|].
    right. apply filter_In. split; [now apply IH|].
    apply negb_true_iff. now apply String.eqb_neq.
Qed.

(** ** Two models that refer to each other *)

Lemma reference_loop_first
    (call : value -> list string -> option (result (bool * list string)))
    (fs : list field) (g : field) (acc acc' : list string) :
  first_reference fs = Some g ->
  call (referenceTo g) acc = Some (Ok (true, acc')) ->
  reference_loop call fs acc = Some (Ok (true, acc')).
Proof.
  unfold first_reference. intros Hfirst Hcall.
  induction fs as [|f fs IH]; [discriminate|].
  cbn [find] in Hfirst. cbn [reference_loop].
  destruct (is_reference_field f).
  - injection Hfirst as ->. now rewrite Hcall.
  - now apply IH.
Qed.

(** From [a], a reference to [b] finds the way back when the first
    reference field of [b] is one to [a]. *)
Lemma hasCycle_there_and_back (ms : list model) (a b : string) (mb : model)
    (fb : list field) (g : field) (fuel : nat) (acc : list string) :
  a <> b ->
  modelMap_get ms (VStr b) = Some mb ->
  fields mb = Val fb ->
  first_reference fb = Some g ->
  referenceTo g = VStr a ->
  hasCycle (S (S fuel)) ms (VStr a) (VStr b) [VStr a] acc =
  Some (Ok (true, acc ++ [there_and_back a b])).
Proof.
  intros Hne Hget Hfields Hfirst Hto.
  apply String.eqb_neq in Hne.
  cbn [hasCycle strict_eq includes_value existsb List.length Nat.eqb].
  rewrite Hne. cbn [andb orb]. rewrite Hget, Hfields.
  eapply reference_loop_first; [eassumption|]. rewrite Hto.
  cbn [hasCycle strict_eq includes_value existsb app List.length Nat.eqb].
  rewrite andb_false_r, String.eqb_refl. reflexivity.
Qed.

Lemma at_least_two {A : Type} (x y : A) (l : list A) :
  In x l -> In y l -> x <> y -> exists n, List.length l = S (S n).
Proof.
  destruct l as [|u [|v l]]; cbn.
  - intros [].
  - intros [<-|[]] [<-|[]] H. now destruct H.
  - intros _ _ _. now eexists.
Qed.

Lemma length_append (s t : string) :
  String.length (s +++ t) = String.length s + String.length t.
Proof. induction s as [|c s IH]; cbn; [reflexivity|now rewrite IH]. Qed.

Lemma append_same_length (s s' t t' : string) :
  String.length s = String.length s' -> s +++ t = s' +++ t' -> s = s'.
Proof.
  revert s'. induction s as [|c s IH]; intros [|c' s']; cbn;
    try discriminate; [reflexivity|].
  intros Hlen H. injection Hlen as Hlen. injection H as -> H.
  f_equal. now apply IH.
Qed.

Lemma there_and_back_differ (a b : string) :
  a <> b -> (there_and_back a b =? there_and_back b a) = false.
Proof.
  intros Hne. apply String.eqb_neq. intros H. apply Hne.
  unfold there_and_back in H.
  apply append_same_length in H; [assumption|].
  apply (f_equal String.length) in H.
  rewrite !length_append in H. cbn in H. lia.
Qed.


(** ** Rendering succeeds on fields whose enum values are arrays *)

Section field_induction.
Variable P : field -> Prop.
Hypothesis Hfield :
  forall n t r ip ia ao ie ev ir rt dv de ne iu iea isr,
    match ne with
    | Val fs => Forall P fs
    | _ => True
    end ->
    P (mkField n t r ip ia ao ie ev ir rt dv de ne iu iea isr).

Fixpoint field_nested_ind (f : field) : P f :=
  match f with
  | mkField n t r ip ia ao ie ev ir rt dv de ne iu iea isr =>
      Hfield n t r ip ia ao ie ev ir rt dv de ne iu iea isr
        (match ne as ne0 return match ne0 with
                                | Val fs => Forall P fs
                                | _ => True
                                end with
         | Val fs =>
             (fix all (fs : list field) : Forall P fs :=
                match fs with
                | [] => Forall_nil P
                | g :: rest => Forall_cons g (field_nested_ind g) (all rest)
                end) fs
         | _ => I
         end)
  end.
End field_induction.

Lemma generateInlineInterface_lines (fs : list field)
    (allModels : nullable (list model)) :
  generateInlineInterface fs allModels =
  (fieldStrings <- mapM (inline_line allModels) fs ;;
   Ok ("{" +++ nl +++ join nl fieldStrings +++ nl +++ "}")).
Proof. reflexivity. Qed.

(** [fieldToTypeScript], with the call of [generateInlineInterface] in
    the place of the loop over the nested fields. *)
Lemma fieldToTypeScript_equation (f : field) (allModels : nullable (list model)) :
  fieldToTypeScript f allModels =
  (tsType <-
     (if truthy (and_then (isEnum f) (enumValues f)) then
        u <- literal_union (enumValues f) ;; Ok (VStr u)
      else if truthy (and_then (isArray f) (arrayOf f)) then
        if truthy (and_then (isEnumArray f) (enumValues f)) then
          enumUnion <- literal_union (enumValues f) ;;
          Ok (VStr ("(" +++ enumUnion +++ ")[]"))
        else Ok (VStr (toString (arrayOf f) +++ "[]"))
      else if truthy (and_then (isReference f) (referenceTo f)) then
        Ok (referenceTo f)
      else
        match nested f with
        | Val fs =>
            if strict_eq (type f) (VStr STANDARD_TYPES.OBJECT) then
              s <- generateInlineInterface fs allModels ;; Ok (VStr s)
            else Ok (type f)
        | _ => Ok (type f)
        end) ;;
   Ok (if truthy (required f) then tsType
       else VStr (toString tsType +++ " | null"))).
Proof.
  destruct f as [n t r ip ia ao ie ev ir rt dv de ne iu iea isr].
  cbn [fieldToTypeScript isEnum enumValues isArray arrayOf isEnumArray
       isReference referenceTo nested type required].
  destruct (truthy (and_then ie ev)); [reflexivity|].
  destruct (truthy (and_then ia ao)); [reflexivity|].
  destruct (truthy (and_then ir rt)); [reflexivity|].
  destruct ne as [| |fs]; try reflexivity.
  destruct (strict_eq t (VStr STANDARD_TYPES.OBJECT)); [|reflexivity].
  rewrite generateInlineInterface_lines.
  assert (Hloop :
    (fix each (fs0 : list field) : result (list string) :=
       match fs0 with
       | [] => Ok []
       | g :: rest =>
           t0 <- fieldToTypeScript g allModels ;;
           strs <- each rest ;;
           Ok (("  " +++ toString (name g) +++
                (if truthy (required g) then "" else "?") +++ ": " +++
                toString t0 +++ ";") :: strs)
       end) fs = mapM (inline_line allModels) fs).
  { induction fs as [|g fs IH]; [reflexivity|].
    cbn [mapM]. unfold inline_line at 1.
    destruct (fieldToTypeScript g allModels); cbn [bind]; [|reflexivity].
    now rewrite IH. }
  rewrite Hloop.
  destruct (mapM (inline_line allModels) fs); reflexivity.
Qed.

Lemma mapM_total {A B : Type} (g : A -> result B) (l : list A) :
  Forall (fun a => exists b, g a = Ok b) l -> exists bs, mapM g l = Ok bs.
Proof.
  induction 1 as [|a l [b Hb] _ [bs Hbs]]; cbn [mapM].
  - now eexists.
  - rewrite Hb, Hbs. now eexists.
Qed.

Lemma literal_union_total (v : value) :
  array_or_falsy v = true ->
  truthy v = true ->
  exists u, literal_union v = Ok u.
Proof.
  destruct v; cbn; intros H1 H2; try (rewrite H2 in H1; discriminate);
    try discriminate; now eexists.
Qed.

Lemma truthy_and_then (x y : value) :
  truthy (and_then x y) = true -> truthy y = true.
Proof.
  unfold and_then. destruct (truthy x) eqn:Hx; [trivial|]. now rewrite Hx.
Qed.

Lemma fieldToTypeScript_total (allModels : nullable (list model)) (f : field) :
  enum_values_are_arrays f = true ->
  exists t, fieldToTypeScript f allModels = Ok t.
Proof.
  induction f as [n t r ip ia ao ie ev ir rt dv de ne iu iea isr IH]
    using field_nested_ind.
  cbn [enum_values_are_arrays enumValues nested].
  intros H. apply andb_true_iff in H as [Hev Hne].
  rewrite fieldToTypeScript_equation.
  cbn [isEnum enumValues isArray arrayOf isEnumArray isReference referenceTo
       nested type required].
  destruct (truthy (and_then ie ev)) eqn:E1.
  { destruct (literal_union_total ev Hev (truthy_and_then _ _ E1)) as [u ->].
    now eexists. }
  destruct (truthy (and_then ia ao)).
  { destruct (truthy (and_then iea ev)) eqn:E2; [|now eexists].
    destruct (literal_union_total ev Hev (truthy_and_then _ _ E2)) as [u ->].
    now eexists. }
  destruct (truthy (and_then ir rt)); [now eexists|].
  destruct ne as [| |fs]; try (now eexists).
  destruct (strict_eq t (VStr STANDARD_TYPES.OBJECT)); [|now eexists].
  rewrite generateInlineInterface_lines.
  destruct (mapM_total (inline_line allModels) fs) as [strs ->];
    [|now eexists].
  rewrite Forall_forall in IH. apply Forall_forall. intros g Hg.
  rewrite forallb_forall in Hne.
  destruct (IH g Hg (Hne g Hg)) as [tg Htg].
  unfold inline_line. rewrite Htg. now eexists.
Qed.

(** ** Imports *)

Lemma set_add_keeps (x y : value) (s : list value) :
  In x s -> In x (set_add y s).
Proof.
  unfold set_add. destruct (includes_value s y); [trivial|].
  intros H. apply in_or_app. now left.
Qed.

Lemma set_add_adds (x : value) (s : list value) : In x (set_add x s).
Proof.
  unfold set_add. destruct (includes_value s x) eqn:E.
  - now apply includes_value_In.
  - apply in_or_app. right. now left.
Qed.

Lemma add_dependency_keeps (enumNames : list value) (x y : value)
    (d : dependencies) :
  In x (dep_models d) -> In x (dep_models (add_dependency enumNames y d)).
Proof.
  unfold add_dependency. destruct (includes_value enumNames y); cbn; [trivial|].
  apply set_add_keeps.
Qed.

Lemma add_dependency_adds (enumNames : list value) (x : value)
    (d : dependencies) :
  includes_value enumNames x = false ->
  In x (dep_models (add_dependency enumNames x d)).
Proof.
  unfold add_dependency. intros ->. cbn. apply set_add_adds.
Qed.

Lemma collect_field_keeps (enumNames : list value) (m : model) (x : value)
    (d : dependencies) (f : field) :
  In x (dep_models d) -> In x (dep_models (collect_field enumNames m d f)).
Proof.
  intros H. unfold collect_field.
  repeat match goal with
         | |- context [if ?c then _ else _] => destruct c
         end;
    repeat apply add_dependency_keeps; assumption.
Qed.

Lemma collect_fields_keep (enumNames : list value) (m : model) (x : value)
    (fs : list field) :
  forall d, In x (dep_models d) ->
            In x (dep_models (fold_left (collect_field enumNames m) fs d)).
Proof.
  induction fs as [|f fs IH]; intros d H; cbn [fold_left]; [assumption|].
  now apply IH, collect_field_keeps.
Qed.

Lemma collect_field_reference (enumNames : list value) (m : model)
    (d : dependencies) (f : field) (b : string) :
  singular f = true ->
  referenceTo f = VStr b ->
  strict_eq (VStr b) (modelName m) = false ->
  includes_value primitives (VStr b) = false ->
  includes_value enumNames (VStr b) = false ->
  In (VStr b) (dep_models (collect_field enumNames m d f)).
Proof.
  unfold singular, is_reference_field.
  intros Hs Hto Hself Hprim Henum.
  apply andb_true_iff in Hs as [Href Harr]. apply negb_true_iff in Harr.
  apply truthy_and_then in Href.
  unfold collect_field. rewrite Harr, Href, Hto, Hself. cbn [negb andb].
  destruct (strict_eq (VStr b) (type f)) eqn:Etype.
  - apply strict_eq_spec in Etype. rewrite <- Etype, Hprim, Hself.
    rewrite Hto in Href. rewrite Href. cbn [negb andb].
    now apply add_dependency_adds.
  - cbn [negb andb]. now apply add_dependency_adds.
Qed.

Lemma collect_fields_reference (enumNames : list value) (m : model)
    (f : field) (b : string) (fs : list field) :
  In f fs ->
  singular f = true ->
  referenceTo f = VStr b ->
  strict_eq (VStr b) (modelName m) = false ->
  includes_value primitives (VStr b) = false ->
  includes_value enumNames (VStr b) = false ->
  forall d, In (VStr b) (dep_models (fold_left (collect_field enumNames m) fs d)).
Proof.
  intros Hin Hs Hto Hself Hprim Henum.
  induction fs as [|g fs IH]; intros d; [destruct Hin|].
  cbn [fold_left]. destruct Hin as [->|Hin].
  - apply collect_fields_keep. now apply collect_field_reference.
  - now apply IH.
Qed.

Lemma enum_names_In (x : value) (es : list enumDef) :
  forall s,
    In x (fold_left (fun s e => set_add (enumName e) s) es s) ->
    In x s \/ In x (map enumName es).
Proof.
  induction es as [|e es IH]; intros s; cbn [fold_left map]; [now left|].
  intros H. apply IH in H as [H|H]; [|right; now right].
  unfold set_add in H. destruct (includes_value s (enumName e)); [now left|].
  apply in_app_or in H as [H|[<-|[]]]; [now left|right; now left].
Qed.

Lemma enum_names_exclude (x : value) (es : nullable (list enumDef)) :
  no_enum_named x es ->
  includes_value
    (fold_left (fun s e => set_add (enumName e) s)
               (match es with Val l => l | _ => [] end) []) x = false.
Proof.
  intros H. apply not_true_is_false. intros Hin.
  apply includes_value_In, enum_names_In in Hin as [[]|Hin].
  destruct es as [| |l]; try destruct Hin.
  apply in_map_iff in Hin as (e & <- & He).
  cbn in H. rewrite Forall_forall in H. now apply (H e He).
Qed.

Lemma import_lines_model (deps : dependencies) (n : string) :
  In (VStr n) (dep_models deps) -> In (import_type_line n) (import_lines deps).
Proof.
  intros H. unfold import_lines. apply in_or_app. right.
  apply in_or_app. left.
  change (import_type_line n) with
    ((fun modelName =>
        "import type { " +++ toString modelName +++ " } from './" +++
        toString modelName +++ "';") (VStr n)).
  now apply in_map.
Qed.

Lemma field_lines_total (includeComments readonly : value)
    (allModels : nullable (list model)) (f : field) :
  enum_values_are_arrays f = true ->
  exists ls, field_lines includeComments readonly allModels f = Ok ls.
Proof.
  intros H. unfold field_lines.
  destruct (fieldToTypeScript_total allModels f H) as [t ->]. now eexists.
Qed.

(** X22.  In standalone mode the document of a model whose fields can be
    rendered has a type-only import for the target of each singular
    reference, unless the target is the model itself, a primitive type
    name or the name of an enum. *)
Theorem standalone_imports_reference (m : model) (opts : options)
    (fs : list field) (f : field) (b : string) :
  truthy (default_to (VBool false) (standalone opts)) = true ->
  fields m = Val fs ->
  forallb enum_values_are_arrays fs = true ->
  In f fs ->
  singular f = true ->
  referenceTo f = VStr b ->
  strict_eq (VStr b) (modelName m) = false ->
  includes_value primitives (VStr b) = false ->
  no_enum_named (VStr b) (allEnums opts) ->
  exists lines,
    interface_lines m opts = Ok lines /\
    In (import_type_line b) lines /\
    generateInterface m opts = Ok (join nl lines).
Proof.
  intros Hstandalone Hfields Hrender Hin Hs Hto Hself Hprim Henum.
  unfold generateInterface, interface_lines, collectTypeDependencies.
  rewrite Hstandalone, Hfields. cbn [bind].
  destruct (mapM_total
              (field_lines (default_to (VBool true) (includeComments opts))
                           (default_to (VBool false) (readonly opts))
                           (allModels opts)) fs) as [body ->].
  { apply Forall_forall. intros g Hg. apply field_lines_total.
    rewrite forallb_forall in Hrender. now apply Hrender. }
  cbn [bind]. eexists. split; [reflexivity|]. split; [|reflexivity].
  apply in_or_app. left. apply import_lines_model.
  apply collect_fields_reference with (f := f); try assumption.
  now apply enum_names_exclude.
Qed.

Lemma standalone_imports_reference_witness :
  exists lines,
    interface_lines author_model standalone_options = Ok lines /\
    In (import_type_line "Book") lines /\
    generateInterface author_model standalone_options = Ok (join nl lines).
Proof.
  apply (standalone_imports_reference author_model standalone_options
           (fields_of author_model) author_book "Book");
    try (vm_compute; reflexivity).
  vm_compute. right. left. reflexivity.
Defined.

(** ** A model that refers to itself *)

(** Whatever the batch, a reference field whose target is its own model
    puts the path from the model to itself into the report. *)
Lemma self_reference_always_reported (ms : list model) (m : model)
    (n : string) (fs : list field) (f : field) :
  all_fields_present ms ->
  In m ms ->
  modelName m = VStr n ->
  fields m = Val fs ->
  In f fs ->
  is_reference_field f = true ->
  referenceTo f = VStr n ->
  exists r,
    detectCircularReferences ms = Ok r /\
    hasCircular r = true /\
    In (n +++ " -> " +++ n) (circularPaths r).
Proof.
  intros Hall Hin Hname Hfields Hf Href Hto.
  destruct (detectCircularReferences_report ms Hall) as (paths & Hrun & ->).
  destruct ms as [|m0 ms']; [destruct Hin|].
  cbn [List.length] in Hrun.
  assert (Hp : In (n +++ " -> " +++ n) paths).
  { eapply (check_models_contains (m0 :: ms') _ m fs f); try eassumption.
    intros acc. rewrite Hname, Hto.
    cbn [hasCycle strict_eq includes_value existsb List.length Nat.eqb].
    rewrite String.eqb_refl. reflexivity. }
  eexists. split; [reflexivity|]. cbn [hasCircular circularPaths].
  split; [|now apply In_unique].
  destruct paths; [destruct Hp|reflexivity].
Qed.

(** ** Two models that refer to each other: the report and the imports *)

(** When the first reference of each of two models is to the other,
    the search from each of them ends at the other's reference back:
    the one cycle is reported as two paths, which the removal of
    duplicates, comparing texts, keeps both. *)
Lemma mutual_cycle_reported_twice (ms : list model) (ma mb : model)
    (a b : string) (fa fb : list field) (ra rb : field) :
  all_fields_present ms ->
  a <> b ->
  modelMap_get ms (VStr a) = Some ma ->
  modelMap_get ms (VStr b) = Some mb ->
  fields ma = Val fa ->
  fields mb = Val fb ->
  first_reference fa = Some ra ->
  first_reference fb = Some rb ->
  referenceTo ra = VStr b ->
  referenceTo rb = VStr a ->
  exists r,
    detectCircularReferences ms = Ok r /\
    hasCircular r = true /\
    In (there_and_back a b) (circularPaths r) /\
    In (there_and_back b a) (circularPaths r).
Proof.
  intros Hall Hne Hget_a Hget_b Hfields_a Hfields_b Hfirst_a Hfirst_b
         Hto_b Hto_a.
  destruct (modelMap_get_Some _ _ _ Hget_a) as [Hina Hname_a].
  destruct (modelMap_get_Some _ _ _ Hget_b) as [Hinb Hname_b].
  destruct (detectCircularReferences_report ms Hall) as (paths & Hrun & ->).
  assert (Hdiff : ma <> mb).
  { intros E. apply Hne. rewrite E, Hname_b in Hname_a. now injection Hname_a. }
  destruct (at_least_two ma mb ms Hina Hinb Hdiff) as [n Hlen].
  rewrite Hlen in Hrun.
  apply find_some in Hfirst_a as Hra. destruct Hra as [Hra_in Hra_ref].
  apply find_some in Hfirst_b as Hrb. destruct Hrb as [Hrb_in Hrb_ref].
  assert (Hab : In (there_and_back a b) paths).
  { eapply (check_models_contains ms (S (S n)) ma fa ra); try eassumption.
    intros acc. rewrite Hname_a, Hto_b.
    eapply hasCycle_there_and_back; eassumption. }
  assert (Hba : In (there_and_back b a) paths).
  { eapply (check_models_contains ms (S (S n)) mb fb rb); try eassumption.
    intros acc. rewrite Hname_b, Hto_a.
    eapply hasCycle_there_and_back; try eassumption.
    intros E. now apply Hne. }
  eexists. split; [reflexivity|]. cbn [hasCircular circularPaths].
  split; [|split; now apply In_unique].
  destruct paths; [destruct Hab|reflexivity].
Qed.

(** C4, on the code.  How often the cycle of two models that refer to
    each other is reported depends on the order of the fields: twice
    for [Author] and [Book], once from each end; once for [A] and [B]
    of [one_sided_schema], where the search from [A] ends at the cycle
    of [B] and [C]; not at all for [A] and [B] of [crossed_schema].  The
    documents of [Author] and [Book] in standalone mode do import each
    other. *)
Theorem mutual_cycle_count_depends_on_field_order :
  detectCircularReferences mutual_models
    = Ok {| hasCircular := true;
            circularPaths := ["Author -> Book -> Author";
                              "Book -> Author -> Book"] |} /\
  detectCircularReferences
    (models (parsePrismaContent one_sided_schema (VStr "schema.prisma")))
    = Ok {| hasCircular := true;
            circularPaths := ["A -> B -> C -> B"; "B -> C -> B";
                              "B -> A -> B"; "C -> B -> C"] |} /\
  detectCircularReferences
    (models (parsePrismaContent crossed_schema (VStr "schema.prisma")))
    = Ok {| hasCircular := true;
            circularPaths := ["A -> C -> A"; "A -> B -> D -> B";
                              "B -> D -> B"; "B -> A -> C -> A";
                              "C -> A -> C"; "D -> B -> D"] |} /\
  map (fun m => generateInterface m standalone_options) mutual_models
    = [Ok (text ["import type { Book } from './Book';";
                 "";
                 "/** Auto-generated from prisma schema */";
                 "export interface Author {";
                 "  id: number;";
                 "  book: Book;";
                 "}"]);
       Ok (text ["import type { Author } from './Author';";
                 "";
                 "/** Auto-generated from prisma schema */";
                 "export interface Book {";
                 "  id: number;";
                 "  author: Author;";
                 "}"])].
Proof. split; [|split; [|split]]; vm_compute; reflexivity. Qed.

(** ** Block location: the positions tried are enough *)

Lemma substring_length (n m : nat) (s : string) :
  String.length (substring n m s) <= String.length s - n.
Proof.
  revert n m. induction s as [|c s IH]; intros [|n] [|m]; cbn; try lia.
  - specialize (IH 0 m). lia.
  - apply IH.
  - apply IH.
Qed.

Lemma span_length (p : ascii -> bool) (s a b : string) :
  span p s = (a, b) -> String.length b <= String.length s.
Proof.
  revert a b. induction s as [|c s IH]; intros a b; cbn.
  - intros H; injection H as <- <-. cbn. lia.
  - destruct (p c).
    + destruct (span p s) as [a' b'] eqn:E.
      intros H; injection H as <- <-. specialize (IH _ _ eq_refl). lia.
    + intros H; injection H as <- <-. cbn. lia.
Qed.

Lemma upto_close_brace_length (s body rest : string) :
  upto_close_brace s = Some (body, rest) ->
  String.length rest < String.length s.
Proof.
  revert body rest. induction s as [|c s IH]; intros body rest; cbn.
  - discriminate.
  - destruct (Ascii.eqb c "}"%char).
    + intros H; injection H as <- <-. lia.
    + destruct (upto_close_brace s) as [[b r]|]; [|discriminate].
      intros H; injection H as <- <-. specialize (IH _ _ eq_refl). lia.
Qed.

(** A match takes at least one character. *)
Lemma match_block_here_length (kw s block rest : string) :
  match_block_here kw s = Some (block, rest) ->
  String.length rest < String.length s.
Proof.
  unfold match_block_here. destruct (prefix kw s); [|discriminate].
  pose proof (substring_length (String.length kw) (String.length s) s) as H0.
  destruct (span is_space _) as [ws r1] eqn:E1.
  destruct (span is_word r1) as [name r2] eqn:E2.
  destruct (span is_space r2) as [ws' r3] eqn:E3.
  apply span_length in E1, E2, E3.
  destruct ((ws =? "") || (name =? "")); [discriminate|].
  destruct r3 as [|c r4]; [discriminate|].
  destruct c as [[] [] [] [] [] [] [] []]; try discriminate.
  destruct (upto_close_brace r4) as [[body rest']|] eqn:E4; [|discriminate].
  intros H; injection H as _ <-.
  apply upto_close_brace_length in E4. cbn in E3. lia.
Qed.

(** With more positions to try than the content has characters, the
    matches no longer depend on the bound. *)
Lemma match_blocks_fuel_enough (kw : string) (n : nat) :
  forall m s,
    String.length s < n -> String.length s < m ->
    match_blocks n kw s = match_blocks m kw s.
Proof.
  induction n as [|n IH]; intros [|m] s Hn Hm; try lia.
  cbn [match_blocks].
  destruct (match_block_here kw s) as [[block rest]|] eqn:E.
  - apply match_block_here_length in E. f_equal. apply IH; lia.
  - destruct s as [|c s]; [reflexivity|]. cbn in Hn, Hm. apply IH; lia.
Qed.

(** ** The run *)

(** C9.  When an ORM is detected and the parse gives no model, the run
    fails with [No models found] and has made no call to the writer. *)
Theorem no_models_found (w : Core.world) (c : Core.config) (orm : value)
    (p : parsed) :
  Core.detectORM w (default_to (Core.cwd w) (Core.projectRoot c)) = Ok orm ->
  truthy orm = true ->
  Core.parseSchemas w orm (default_to (Core.cwd w) (Core.projectRoot c)) c
    = Ok p ->
  models p = [] ->
  Core.generateTypes w c = (Core.Failed "No models found", []).
Proof.
  intros Horm Htruthy Hparse Hnone.
  unfold Core.generateTypes, Core.generateTypes_body, Core.and_next, Core.pure.
  rewrite Horm, Htruthy. cbn [negb]. rewrite Hparse, Hnone. reflexivity.
Qed.

Lemma no_models_found_witness :
  Core.generateTypes empty_project types_config
  = (Core.Failed "No models found", []).
Proof.
  apply (no_models_found empty_project types_config (VStr "prisma")
           {| models := []; enums := [] |});
    vm_compute; reflexivity.
Defined.

(* ================================================================== *)

(** * Further properties *)

(* ================================================================== *)

(** ** Validation *)

Lemma length_zero_nil {A : Type} (l : list A) :
  (List.length l =? 0)%nat = true <-> l = [].
Proof. destruct l; cbn; split; congruence. Qed.

Lemma fields_errors_nil (fs : list field) :
  forall index,
    fields_errors index fs = [] <->
    Forall (fun f => truthy (name f) = true /\ truthy (type f) = true) fs.
Proof.
  induction fs as [|f fs IH]; intros index; cbn [fields_errors].
  - split; [constructor|reflexivity].
  - unfold field_errors. split.
    + intros H. apply app_eq_nil in H as [H1 H2].
      apply app_eq_nil in H1 as [Hn Ht].
      constructor; [|now apply (IH (S index))].
      destruct (truthy (name f)); [|discriminate].
      destruct (truthy (type f)); [|discriminate]. now split.
    + intros H. inversion H as [|? ? [Hn Ht] Hrest]; subst.
      rewrite Hn, Ht. cbn [app]. now apply IH.
Qed.

Lemma validateSchema_valid_when (m : model) :
  valid (validateSchema m) = true <->
  truthy (modelName m) = true /\
  exists fs, fields m = Val fs /\
             Forall (fun f => truthy (name f) = true /\ truthy (type f) = true)
                    fs.
Proof.
  unfold validateSchema. cbn [valid]. rewrite length_zero_nil. split.
  - intros H. apply app_eq_nil in H as [Hname H].
    apply app_eq_nil in H as [Hpresent Hfields].
    destruct (truthy (modelName m)); [|discriminate].
    split; [reflexivity|].
    destruct (fields m) as [| |fs]; try discriminate.
    exists fs. split; [reflexivity|]. now apply (fields_errors_nil fs 0).
  - intros [Hname (fs & Hfs & Hall)]. rewrite Hname, Hfs. cbn [present app].
    now apply fields_errors_nil.
Qed.

Lemma normalized_type_truthy (f : field) :
  truthy (type (normalizeField f)) = true.
Proof.
  cbn [normalizeField type]. unfold or_else.
  destruct (truthy (type f)) eqn:E; [assumption|reflexivity].
Qed.

Lemma normalizeModel_valid_when (m : model) :
  valid (validateSchema (normalizeModel m)) = true <->
  truthy (modelName m) = true /\
  Forall (fun f => truthy (name f) = true) (fields_of m).
Proof.
  rewrite validateSchema_valid_when.
  cbn [normalizeModel modelName fields]. unfold fields_of. split.
  - intros [Hname (fs & Hfs & Hall)]. split; [assumption|].
    injection Hfs as <-. rewrite Forall_map in Hall.
    eapply Forall_impl; [|exact Hall]. now intros f [Hn _].
  - intros [Hname Hall]. split; [assumption|].
    eexists. split; [reflexivity|]. rewrite Forall_map.
    eapply Forall_impl; [|exact Hall].
    intros f Hn. split; [exact Hn|apply normalized_type_truthy].
Qed.

(** X1.  A schema is valid exactly when the model has a name, its fields are
    an array, and every field has a name and a type. *)
Theorem validateSchema_valid_iff (m : model) :
  valid (validateSchema m) = true <->
  truthy (modelName m) = true /\
  exists fs, fields m = Val fs /\
             Forall (fun f => truthy (name f) = true /\ truthy (type f) = true)
                    fs.
Proof. exact (validateSchema_valid_when m). Qed.

(** X2.  After normalization a model is valid exactly when it has a name and
    each of its fields has one: fields and types are always there. *)
Theorem normalized_model_valid_iff (m : model) :
  valid (validateSchema (normalizeModel m)) = true <->
  truthy (modelName m) = true /\
  Forall (fun f => truthy (name f) = true) (fields_of m).
Proof. exact (normalizeModel_valid_when m). Qed.

(** ** Self-reference marking *)

Lemma markSelfReferences_marked (ms : list model) :
  all_fields_present ms ->
  markSelfReferences ms = Ok (map (fun m => marked m (fields_of m)) ms).
Proof.
  unfold all_fields_present, markSelfReferences.
  induction ms as [|m ms IH]; cbn [forallb mapM map]; [reflexivity|].
  intros H. apply andb_true_iff in H as [Hm Hms].
  unfold fields_of at 1. destruct (fields m) as [| |fs]; try discriminate.
  cbn [bind]. rewrite (IH Hms). reflexivity.
Qed.

(** A model without its fields array makes the marking throw. *)
Lemma markSelfReferences_throws (ms : list model) :
  forallb (fun m => present (fields m)) ms = false ->
  markSelfReferences ms = Throw TypeError.
Proof.
  unfold markSelfReferences.
  induction ms as [|m ms IH]; cbn [forallb mapM]; [discriminate|].
  destruct (fields m) as [| |fs]; cbn [present andb bind]; try reflexivity.
  intros H. now rewrite (IH H).
Qed.

Lemma fieldToTypeScript_marked (m : model) (f : field)
    (allModels : nullable (list model)) :
  fieldToTypeScript (markSelfReference m f) allModels
  = fieldToTypeScript f allModels.
Proof.
  unfold markSelfReference.
  destruct (truthy (isReference f) && strict_eq (referenceTo f) (modelName m));
    [|reflexivity].
  now rewrite !fieldToTypeScript_equation.
Qed.

Lemma field_lines_marked (ic ro : value) (allModels : nullable (list model))
    (m : model) (f : field) :
  field_lines ic ro allModels (markSelfReference m f)
  = field_lines ic ro allModels f.
Proof.
  unfold field_lines. rewrite fieldToTypeScript_marked.
  unfold markSelfReference.
  now destruct (truthy (isReference f) && strict_eq (referenceTo f) (modelName m)).
Qed.

Lemma collect_field_marked (enumNames : list value) (m m' : model)
    (d : dependencies) (f : field) :
  modelName m' = modelName m ->
  collect_field enumNames m' d (markSelfReference m f)
  = collect_field enumNames m d f.
Proof.
  intros Hname. unfold collect_field, markSelfReference. rewrite Hname.
  now destruct (truthy (isReference f) && strict_eq (referenceTo f) (modelName m)).
Qed.

Lemma fold_left_map {A B C : Type} (f : A -> B -> A) (g : C -> B)
    (l : list C) :
  forall a, fold_left f (map g l) a = fold_left (fun a c => f a (g c)) l a.
Proof. induction l as [|c l IH]; intros a; cbn; [reflexivity|apply IH]. Qed.

Lemma fold_left_ext {A B : Type} (f g : A -> B -> A) (l : list B) :
  (forall a b, f a b = g a b) ->
  forall a, fold_left f l a = fold_left g l a.
Proof.
  intros H. induction l as [|b l IH]; intros a; cbn; [reflexivity|].
  now rewrite H, IH.
Qed.

Lemma mapM_map {A B C : Type} (f : B -> result C) (g : A -> B) (l : list A) :
  mapM f (map g l) = mapM (fun a => f (g a)) l.
Proof.
  induction l as [|a l IH]; cbn [map mapM]; [reflexivity|]. now rewrite IH.
Qed.

Lemma mapM_ext {A B : Type} (f g : A -> result B) (l : list A) :
  (forall a, f a = g a) -> mapM f l = mapM g l.
Proof.
  intros H. induction l as [|a l IH]; cbn [mapM]; [reflexivity|].
  now rewrite H, IH.
Qed.

Lemma generateInterface_marked (m : model) (fs : list field) (opts : options) :
  fields m = Val fs ->
  generateInterface (marked m fs) opts = generateInterface m opts.
Proof.
  intros Hfs. unfold generateInterface, interface_lines, collectTypeDependencies.
  cbn [marked modelName fields modelDescription source]. rewrite Hfs.
  rewrite fold_left_map, mapM_map.
  rewrite (fold_left_ext _ (collect_field
     (fold_left (fun s e => set_add (enumName e) s)
        (match allEnums opts with Val l => l | _ => [] end) []) m)).
  2:{ intros d f. now apply collect_field_marked. }
  rewrite (mapM_ext _ (field_lines (default_to (VBool true) (includeComments opts))
                         (default_to (VBool false) (readonly opts))
                         (allModels opts))).
  2:{ intros f. apply field_lines_marked. }
  reflexivity.
Qed.

(** X3.  Marking changes no document: each marked model is rendered as the
    model it was made from, whatever the options. *)
Theorem marking_changes_no_interface (ms ms' : list model) (opts : options) :
  markSelfReferences ms = Ok ms' ->
  map (fun m => generateInterface m opts) ms'
  = map (fun m => generateInterface m opts) ms.
Proof.
  destruct (forallb (fun m => present (fields m)) ms) eqn:Hall.
  - rewrite (markSelfReferences_marked ms Hall). intros H; injection H as <-.
    rewrite map_map. apply map_ext_in. intros m Hin.
    rewrite forallb_forall in Hall. specialize (Hall m Hin).
    unfold fields_of. destruct (fields m) as [| |fs] eqn:Hfs; try discriminate.
    now apply generateInterface_marked.
  - now rewrite (markSelfReferences_throws ms Hall).
Qed.

Lemma marking_changes_no_interface_witness :
  map (fun m => generateInterface m no_options) category_marked
  = map (fun m => generateInterface m no_options) category_models.
Proof.
  apply (marking_changes_no_interface category_models category_marked
           no_options).
  vm_compute. reflexivity.
Defined.

Lemma markSelfReference_again (m m' : model) (f : field) :
  modelName m' = modelName m ->
  markSelfReference m' (markSelfReference m f) = markSelfReference m f.
Proof.
  intros E. unfold markSelfReference at 2.
  destruct (truthy (isReference f) && strict_eq (referenceTo f) (modelName m))
    eqn:C.
  - unfold markSelfReference. cbn [isReference referenceTo]. rewrite E, C.
    reflexivity.
  - unfold markSelfReference. now rewrite E, C.
Qed.

Lemma marked_again (m : model) (fs : list field) :
  marked (marked m fs) (fields_of (marked m fs)) = marked m fs.
Proof.
  unfold marked, fields_of.
  cbn [modelName tableName modelDescription source filePath fields].
  f_equal. f_equal. rewrite map_map. apply map_ext. intros f.
  now apply markSelfReference_again.
Qed.

Lemma markSelfReference_flag (m : model) (f : field) :
  name (markSelfReference m f) = name f /\
  (isSelfReference (markSelfReference m f) = VBool true <->
   isSelfReference f = VBool true \/
   truthy (isReference f) && strict_eq (referenceTo f) (modelName m) = true).
Proof.
  unfold markSelfReference.
  destruct (truthy (isReference f) && strict_eq (referenceTo f) (modelName m));
    cbn [name isSelfReference]; split; try reflexivity.
  - split; [now right|reflexivity].
  - split; [now left|]. now intros [H|H].
Qed.

(** X4.  The marking of a batch is settled after one pass: a second
    marking gives the same models.  Models and fields keep their names
    and their order, and a field of the result is flagged exactly when
    it was flagged before or is a reference to the name of its model. *)
Theorem self_reference_flag (ms ms' : list model) :
  markSelfReferences ms = Ok ms' ->
  markSelfReferences ms' = Ok ms' /\
  Forall2 (fun m m' =>
             modelName m' = modelName m /\
             Forall2 (fun f f' =>
                        name f' = name f /\
                        (isSelfReference f' = VBool true <->
                         isSelfReference f = VBool true \/
                         truthy (isReference f) &&
                         strict_eq (referenceTo f) (modelName m) = true))
                     (fields_of m) (fields_of m'))
          ms ms'.
Proof.
  intros H.
  destruct (forallb (fun m => present (fields m)) ms) eqn:Hall;
    [|now rewrite (markSelfReferences_throws ms Hall) in H].
  rewrite (markSelfReferences_marked ms Hall) in H. injection H as <-.
  split.
  - rewrite markSelfReferences_marked.
    + rewrite map_map. f_equal. apply map_ext. intros m. apply marked_again.
    + unfold all_fields_present. rewrite forallb_forall. intros m Hm.
      apply in_map_iff in Hm as (m0 & <- & _). reflexivity.
  - clear Hall. induction ms as [|m ms IH]; cbn [map]; constructor;
      [|exact IH].
    split; [reflexivity|]. cbn [marked fields_of fields].
    induction (fields_of m) as [|f fs IHf]; cbn [map]; constructor;
      [apply markSelfReference_flag|exact IHf].
Qed.

Lemma self_reference_flag_witness :
  markSelfReferences category_marked = Ok category_marked /\
  Forall2 (fun m m' =>
             modelName m' = modelName m /\
             Forall2 (fun f f' =>
                        name f' = name f /\
                        (isSelfReference f' = VBool true <->
                         isSelfReference f = VBool true \/
                         truthy (isReference f) &&
                         strict_eq (referenceTo f) (modelName m) = true))
                     (fields_of m) (fields_of m'))
          category_models category_marked.
Proof.
  apply (self_reference_flag category_models category_marked).
  vm_compute. reflexivity.
Defined.

(** X5.  The array fields of the Prisma adapter are no references, so the
    marking leaves them as they are, also in the model they name. *)
Theorem prisma_arrays_are_never_flagged (m : model) (line : string)
    (f : field) :
  parseField line = Some f ->
  truthy (isArray (normalizeField f)) = true ->
  markSelfReference m (normalizeField f) = normalizeField f.
Proof.
  intros Hparse Harr.
  destruct (parseField_array_not_reference line f Hparse Harr) as [Href _].
  unfold markSelfReference. now rewrite Href.
Qed.

Lemma prisma_arrays_are_never_flagged_witness :
  markSelfReference post_model (normalizeField posts_field)
  = normalizeField posts_field.
Proof.
  apply (prisma_arrays_are_never_flagged post_model "posts Post[]" posts_field);
    vm_compute; reflexivity.
Defined.

(** ** The report of the cycle detection *)

Lemma unique_In (x : string) (l : list string) : In x (unique l) -> In x l.
Proof.
  induction l as [|y l IH]; [intros []|]. cbn [unique]. intros [->|H].
  - now left.
  - apply filter_In in H as [H _]. right. now apply IH.
Qed.

Lemma unique_NoDup (l : list string) : NoDup (unique l).
Proof.
  induction l as [|x l IH]; cbn [unique]; constructor.
  - intros H. apply filter_In in H as [_ H].
    now rewrite String.eqb_refl in H.
  - now apply NoDup_filter.
Qed.

(** Whatever throws in the detection is a [TypeError]. *)
Lemma reference_loop_throws
    (call : value -> list string -> option (result (bool * list string)))
    (fs : list field) :
  (forall target acc e, call target acc = Some (Throw e) -> e = TypeError) ->
  forall acc e, reference_loop call fs acc = Some (Throw e) -> e = TypeError.
Proof.
  intros Hcall. induction fs as [|f fs IH]; intros acc e; cbn [reference_loop].
  - discriminate.
  - destruct (is_reference_field f); [|apply IH].
    destruct (call (referenceTo f) acc) as [[[[|] acc']|e']|] eqn:E;
      try discriminate.
    + apply IH.
    + intros H; injection H as <-. eapply Hcall, E.
Qed.

Lemma hasCycle_throws (ms : list model) (fuel : nat) :
  forall currentModel targetModel path acc e,
    hasCycle fuel ms currentModel targetModel path acc = Some (Throw e) ->
    e = TypeError.
Proof.
  induction fuel as [|fuel IH]; intros cur tgt path acc e; cbn [hasCycle].
  - discriminate.
  - destruct (strict_eq cur tgt && (List.length path =? 0)%nat);
      [discriminate|].
    destruct (includes_value path tgt); [discriminate|].
    destruct (modelMap_get ms tgt) as [m|]; [|discriminate].
    destruct (fields m) as [| |fs].
    + intros H; now injection H.
    + intros H; now injection H.
    + apply reference_loop_throws. intros target acc' e'. apply IH.
Qed.

Lemma check_fields_throws (ms : list model) (fuel : nat) (m : model)
    (fs : list field) :
  forall acc e,
    check_fields fuel ms m fs acc = Some (Throw e) -> e = TypeError.
Proof.
  induction fs as [|f fs IH]; intros acc e; cbn [check_fields].
  - discriminate.
  - destruct (is_reference_field f); [|apply IH].
    destruct (hasCycle fuel ms (modelName m) (referenceTo f) [modelName m] acc)
      as [[[b acc']|e']|] eqn:E; try discriminate.
    + apply IH.
    + intros H; injection H as <-. eapply hasCycle_throws, E.
Qed.

Lemma check_models_throws (ms : list model) (fuel : nat) (rest : list model) :
  forall acc e,
    check_models fuel ms rest acc = Some (Throw e) -> e = TypeError.
Proof.
  induction rest as [|m rest IH]; intros acc e; cbn [check_models].
  - discriminate.
  - destruct (fields m) as [| |fs]; try (intros H; now injection H).
    destruct (check_fields fuel ms m fs acc) as [[acc'|e']|] eqn:E;
      try discriminate.
    + apply IH.
    + intros H; injection H as <-. eapply check_fields_throws, E.
Qed.

(** A model without its fields is met, unless something threw before. *)
Lemma check_models_missing_fields (ms : list model) (fuel : nat)
    (rest : list model) :
  forallb (fun m => present (fields m)) rest = false ->
  forall acc paths, check_models fuel ms rest acc <> Some (Ok paths).
Proof.
  induction rest as [|m rest IH]; cbn [forallb check_models]; [discriminate|].
  intros H acc paths.
  destruct (fields m) as [| |fs]; cbn [present andb] in H; try discriminate.
  destruct (check_fields fuel ms m fs acc) as [[acc'|e']|]; try discriminate.
  now apply IH.
Qed.

(** X6.  The detection gives a report exactly on the batches whose models
    all have their fields array, and throws a [TypeError] on the
    others.  The paths of a report are pairwise different, and
    [hasCircular] says whether there is one. *)
Theorem detectCircularReferences_outcome (ms : list model) :
  if forallb (fun m => present (fields m)) ms
  then exists r, detectCircularReferences ms = Ok r /\
                 NoDup (circularPaths r) /\
                 hasCircular r = (0 <? List.length (circularPaths r))%nat
  else detectCircularReferences ms = Throw TypeError.
Proof.
  destruct (forallb (fun m => present (fields m)) ms) eqn:Hall.
  - destruct (detectCircularReferences_report ms Hall) as (paths & _ & ->).
    eexists. split; [reflexivity|]. cbn [circularPaths hasCircular].
    split; [apply unique_NoDup|]. now destruct paths.
  - unfold detectCircularReferences.
    destruct (check_models (List.length ms) ms ms []) as [[paths|e]|] eqn:E.
    + now apply check_models_missing_fields in E.
    + now rewrite (check_models_throws _ _ _ _ _ E).
    + reflexivity.
Qed.

(** ** What a reported path is *)

Lemma reference_loop_pushes (ms : list model)
    (call : value -> list string -> option (result (bool * list string)))
    (fs : list field) :
  (forall target acc b acc',
      call target acc = Some (Ok (b, acc')) ->
      forall p, In p acc' -> In p acc \/ closed_walk ms p) ->
  forall acc b acc',
    reference_loop call fs acc = Some (Ok (b, acc')) ->
    forall p, In p acc' -> In p acc \/ closed_walk ms p.
Proof.
  intros Hcall. induction fs as [|f fs IH]; intros acc b acc'; cbn [reference_loop].
  - intros H; injection H as _ <-. now left.
  - destruct (is_reference_field f); [|apply IH].
    destruct (call (referenceTo f) acc) as [[[[|] acc1]|e]|] eqn:E;
      try discriminate.
    + intros H; injection H as _ <-. eapply Hcall, E.
    + intros H p Hp. destruct (IH _ _ _ H p Hp) as [Hin|Hw]; [|now right].
      eapply Hcall; eassumption.
Qed.

Lemma hasCycle_pushes (ms : list model) (fuel : nat) :
  forall currentModel targetModel path acc b acc',
    NoDup path -> incl path (map modelName ms) ->
    hasCycle fuel ms currentModel targetModel path acc = Some (Ok (b, acc')) ->
    forall p, In p acc' -> In p acc \/ closed_walk ms p.
Proof.
  induction fuel as [|fuel IH]; intros cur tgt path acc b acc' Hnd Hincl;
    cbn [hasCycle].
  - discriminate.
  - destruct (strict_eq cur tgt && (List.length path =? 0)%nat).
    { intros H; injection H as _ <-. now left. }
    destruct (includes_value path tgt) eqn:Hseen.
    { intros H; injection H as _ <-. intros p Hp.
      apply in_app_or in Hp as [Hp|[<-|[]]]; [now left|right].
      exists path, tgt. repeat split; try assumption.
      now apply includes_value_In. }
    destruct (modelMap_get ms tgt) as [m|] eqn:Hget.
    2:{ intros H; injection H as _ <-. now left. }
    apply modelMap_get_Some in Hget as [Hin Hname].
    destruct (fields m) as [| |fs]; try discriminate.
    apply reference_loop_pushes. intros target acc0 b0 acc1. apply IH.
    + apply NoDup_app; [assumption|repeat constructor; intros []|].
      intros x Hx [<-|[]]. apply includes_value_In in Hx. congruence.
    + intros x Hx. apply in_app_or in Hx as [Hx|[<-|[]]].
      * now apply Hincl.
      * subst tgt. now apply in_map.
Qed.

Lemma check_fields_pushes (ms : list model) (fuel : nat) (m : model)
    (fs : list field) :
  In m ms ->
  forall acc acc',
    check_fields fuel ms m fs acc = Some (Ok acc') ->
    forall p, In p acc' -> In p acc \/ closed_walk ms p.
Proof.
  intros Hin. induction fs as [|f fs IH]; intros acc acc'; cbn [check_fields].
  - intros H; injection H as <-. now left.
  - destruct (is_reference_field f); [|apply IH].
    destruct (hasCycle fuel ms (modelName m) (referenceTo f) [modelName m] acc)
      as [[[b acc1]|e]|] eqn:E; try discriminate.
    intros H p Hp. destruct (IH _ _ H p Hp) as [Hp1|Hw]; [|now right].
    eapply hasCycle_pushes; [| |exact E|exact Hp1].
    + repeat constructor. intros [].
    + intros x [<-|[]]. now apply in_map.
Qed.

Lemma check_models_pushes (ms : list model) (fuel : nat) (rest : list model) :
  incl rest ms ->
  forall acc acc',
    check_models fuel ms rest acc = Some (Ok acc') ->
    forall p, In p acc' -> In p acc \/ closed_walk ms p.
Proof.
  induction rest as [|m rest IH]; intros Hincl acc acc'; cbn [check_models].
  - intros H; injection H as <-. now left.
  - destruct (fields m) as [| |fs]; try discriminate.
    destruct (check_fields fuel ms m fs acc) as [[acc1|e]|] eqn:E;
      try discriminate.
    intros H p Hp.
    assert (Hrest : incl rest ms) by (intros x Hx; apply Hincl; now right).
    destruct (IH Hrest _ _ H p Hp) as [Hp1|Hw]; [|now right].
    eapply check_fields_pushes; [|exact E|exact Hp1]. apply Hincl. now left.
Qed.

(** X7.  Every reported path lists distinct model names of the batch and
    ends with one of them a second time. *)
Theorem reported_paths_are_closed_walks (ms : list model) (r : circularReport)
    (p : string) :
  detectCircularReferences ms = Ok r ->
  In p (circularPaths r) ->
  closed_walk ms p.
Proof.
  unfold detectCircularReferences.
  destruct (check_models (List.length ms) ms ms []) as [[paths|e]|] eqn:E;
    try discriminate.
  intros H; injection H as <-. cbn [circularPaths]. intros Hp.
  apply unique_In in Hp.
  destruct (check_models_pushes ms _ ms (incl_refl ms) _ _ E p Hp) as [[]|Hw].
  exact Hw.
Qed.

Lemma reported_paths_are_closed_walks_witness :
  closed_walk mutual_models "Author -> Book -> Author".
Proof.
  apply (reported_paths_are_closed_walks mutual_models
           {| hasCircular := true;
              circularPaths := ["Author -> Book -> Author";
                                "Book -> Author -> Book"] |}
           "Author -> Book -> Author").
  - vm_compute. reflexivity.
  - left. reflexivity.
Defined.

(** ** References that lead out of the batch *)

Lemma modelMap_get_None (ms : list model) (k : value) (m : model) :
  modelMap_get ms k = None -> In m ms -> strict_eq (modelName m) k = false.
Proof.
  unfold modelMap_get. intros H Hin.
  apply (find_none _ _ H m). now apply -> in_rev.
Qed.

Lemma check_fields_lead_out (ms : list model) (fuel : nat) (m : model)
    (fs : list field) (acc : list string) :
  In m ms ->
  Forall (fun f => is_reference_field f = true ->
                   modelMap_get ms (referenceTo f) = None) fs ->
  check_fields (S fuel) ms m fs acc = Some (Ok acc).
Proof.
  intros Hin. induction 1 as [|f fs Hf _ IH]; cbn [check_fields];
    [reflexivity|].
  destruct (is_reference_field f); [|exact IH].
  specialize (Hf eq_refl).
  cbn [hasCycle List.length Nat.eqb includes_value existsb].
  rewrite andb_false_r, (modelMap_get_None ms _ m Hf Hin), Hf.
  cbn [orb]. exact IH.
Qed.

(** X8.  When every reference of every model names something that is no
    model of the batch, nothing is reported. *)
Theorem dangling_references_are_no_cycles (ms : list model) :
  all_fields_present ms ->
  Forall (references_lead_out ms) ms ->
  detectCircularReferences ms =
  Ok {| hasCircular := false; circularPaths := [] |}.
Proof.
  intros Hall Hout. unfold detectCircularReferences.
  destruct ms as [|m0 ms0]; [reflexivity|].
  set (ms := m0 :: ms0) in *.
  assert (H : forall rest, incl rest ms ->
              check_models (List.length ms) ms rest [] = Some (Ok [])).
  { induction rest as [|m rest IH]; intros Hincl; [reflexivity|].
    cbn [check_models].
    assert (Hin : In m ms) by (apply Hincl; now left).
    unfold all_fields_present in Hall. rewrite forallb_forall in Hall.
    specialize (Hall m Hin). rewrite Forall_forall in Hout.
    specialize (Hout m Hin). unfold references_lead_out, fields_of in Hout.
    destruct (fields m) as [| |fs]; try discriminate.
    subst ms. cbn [List.length].
    rewrite (check_fields_lead_out _ _ m fs [] Hin Hout).
    apply IH. intros x Hx. apply Hincl. now right. }
  rewrite (H ms (incl_refl ms)). reflexivity.
Qed.

Lemma dangling_references_are_no_cycles_witness :
  detectCircularReferences orphan_models
  = Ok {| hasCircular := false; circularPaths := [] |}.
Proof.
  apply (dangling_references_are_no_cycles orphan_models).
  - vm_compute. reflexivity.
  - apply Forall_cons; [|apply Forall_nil].
    apply Forall_cons; [intros _; vm_compute; reflexivity|].
    apply Forall_cons; [intros _; vm_compute; reflexivity|].
    apply Forall_nil.
Defined.

(** ** Strings: runs, prefixes and trimming *)

Lemma append_assoc (a b c : string) : (a +++ b) +++ c = a +++ b +++ c.
Proof. induction a as [|x a IH]; cbn; [reflexivity|now rewrite IH]. Qed.

Lemma append_empty (a : string) : a +++ "" = a.
Proof. induction a as [|x a IH]; cbn; [reflexivity|now rewrite IH]. Qed.

(** [span] cuts the string in two; the first part is a run of [p]. *)
Lemma span_spec (p : ascii -> bool) (s a b : string) :
  span p s = (a, b) -> s = a +++ b /\ all_chars p a = true.
Proof.
  revert a b. induction s as [|c s IH]; intros a b; cbn [span].
  - intros H; injection H as <- <-. now split.
  - destruct (p c) eqn:Hc.
    + destruct (span p s) as [a' b'].
      intros H; injection H as <- <-.
      destruct (IH _ _ eq_refl) as [-> Hall]. cbn. now rewrite Hc.
    + intros H; injection H as <- <-. now split.
Qed.

Lemma substring_all (s : string) :
  forall m, String.length s <= m -> substring 0 m s = s.
Proof.
  induction s as [|x s IH]; intros [|m] H; cbn in *; try reflexivity; try lia.
  f_equal. apply IH. lia.
Qed.

Lemma substring_skip (p r : string) (m : nat) :
  substring (String.length p) m (p +++ r) = substring 0 m r.
Proof. induction p as [|x p IH]; cbn; [reflexivity|exact IH]. Qed.

Lemma prefix_exists (p s : string) :
  prefix p s = true -> exists r, s = p +++ r.
Proof.
  revert s. induction p as [|c p IH]; intros s; cbn.
  - intros _. now exists s.
  - destruct s as [|d s]; cbn; [discriminate|].
    destruct (ascii_dec c d) as [->|]; [|discriminate].
    intros H. destruct (IH s H) as [r ->]. now exists r.
Qed.

(** What follows a prefix is the text without it. *)
Lemma prefix_append (p s : string) :
  prefix p s = true ->
  s = p +++ substring (String.length p) (String.length s) s.
Proof.
  intros H. destruct (prefix_exists p s H) as [r ->].
  rewrite substring_skip, substring_all; [reflexivity|].
  rewrite length_append. lia.
Qed.

(** *** Trimming *)

Lemma span_all (p : ascii -> bool) (a s : string) :
  all_chars p a = true ->
  span p (a +++ s) = (a +++ fst (span p s), snd (span p s)).
Proof.
  induction a as [|c a IH]; cbn [all_chars append span].
  - intros _. now destruct (span p s).
  - intros H. apply andb_true_iff in H as [Hc Ha].
    rewrite Hc, (IH Ha). reflexivity.
Qed.

Lemma trimStart_spaces (a s : string) :
  all_chars is_space a = true -> trimStart (a +++ s) = trimStart s.
Proof. intros H. unfold trimStart. now rewrite span_all. Qed.

Lemma trimEnd_empty_iff (s : string) :
  trimEnd s = "" <-> all_chars is_space s = true.
Proof.
  induction s as [|c s IH]; cbn [trimEnd all_chars]; [now split|].
  destruct (is_space c); cbn [andb].
  - destruct (trimEnd s) eqn:E; cbn.
    + split; [intros _; now apply IH|reflexivity].
    + split; [discriminate|]. intros H. apply IH in H. discriminate.
  - split; discriminate.
Qed.

Lemma trimEnd_spaces (s b : string) :
  all_chars is_space b = true -> trimEnd (s +++ b) = trimEnd s.
Proof.
  intros Hb. induction s as [|c s IH]; cbn [append trimEnd].
  - now apply trimEnd_empty_iff.
  - now rewrite IH.
Qed.

Lemma trimStart_append (s b : string) :
  trimStart (s +++ b) =
  if all_chars is_space s then trimStart b else trimStart s +++ b.
Proof.
  unfold trimStart. induction s as [|c s IH]; cbn [append span all_chars].
  - reflexivity.
  - destruct (is_space c); cbn [andb].
    + destruct (span is_space (s +++ b)) as [x y].
      destruct (span is_space s) as [x' y']. exact IH.
    + reflexivity.
Qed.

Lemma trimStart_all_spaces (s : string) :
  all_chars is_space s = true -> trimStart s = "".
Proof.
  unfold trimStart. induction s as [|c s IH]; cbn [span all_chars];
    [reflexivity|].
  intros H. apply andb_true_iff in H as [Hc Hs]. rewrite Hc.
  specialize (IH Hs). now destruct (span is_space s).
Qed.

(** White space around a text does not change what [trim] gives. *)
Lemma trim_surrounded (a s b : string) :
  all_chars is_space a = true ->
  all_chars is_space b = true ->
  trim (a +++ s +++ b) = trim s.
Proof.
  intros Ha Hb. unfold trim. rewrite (trimStart_spaces a _ Ha).
  rewrite trimStart_append. destruct (all_chars is_space s) eqn:Hs.
  - rewrite (trimStart_all_spaces b Hb), (trimStart_all_spaces s Hs).
    reflexivity.
  - now apply trimEnd_spaces.
Qed.

(** X9.  Indentation and trailing white space of a field line are of no
    account. *)
Theorem parseField_ignores_surrounding_space (a line b : string) :
  all_chars is_space a = true ->
  all_chars is_space b = true ->
  parseField (a +++ line +++ b) = parseField line.
Proof.
  intros Ha Hb. unfold parseField. now rewrite (trim_surrounded a line b Ha Hb).
Qed.

Lemma parseField_ignores_surrounding_space_witness :
  parseField ("  " +++ "email String @unique" +++ " ")
  = parseField "email String @unique".
Proof.
  apply (parseField_ignores_surrounding_space "  " "email String @unique" " ");
    vm_compute; reflexivity.
Defined.

(** ** The blocks of a schema *)

Lemma exists_char_append (p : ascii -> bool) (a b : string) :
  exists_char p (a +++ b) = exists_char p a || exists_char p b.
Proof.
  induction a as [|c a IH]; cbn; [reflexivity|]. now rewrite IH, orb_assoc.
Qed.

Lemma all_chars_exclude (p q : ascii -> bool) (s : string) :
  (forall c, p c = true -> q c = false) ->
  all_chars p s = true -> exists_char q s = false.
Proof.
  intros Hpq. induction s as [|c s IH]; cbn; [reflexivity|].
  intros H. apply andb_true_iff in H as [Hc Hs].
  now rewrite (Hpq c Hc), (IH Hs).
Qed.

Lemma space_is_no_brace (c : ascii) :
  is_space c = true -> is_close_brace c = false.
Proof. destruct c as [[] [] [] [] [] [] [] []]; vm_compute; congruence. Qed.

Lemma word_is_no_brace (c : ascii) :
  is_word c = true -> is_close_brace c = false.
Proof. destruct c as [[] [] [] [] [] [] [] []]; vm_compute; congruence. Qed.

Lemma prefix_of_append (p r : string) : prefix p (p +++ r) = true.
Proof.
  induction p as [|c p IH]; cbn; [now destruct r|].
  destruct (ascii_dec c c); [exact IH|congruence].
Qed.

Lemma upto_close_brace_spec (s body rest : string) :
  upto_close_brace s = Some (body, rest) ->
  s = body +++ rest /\
  exists pre, body = pre +++ "}" /\ exists_char is_close_brace pre = false.
Proof.
  revert body rest. induction s as [|c s IH]; intros body rest;
    cbn [upto_close_brace]; [discriminate|].
  destruct (Ascii.eqb c "}"%char) eqn:Hc.
  - intros H; injection H as <- <-. apply Ascii.eqb_eq in Hc as ->.
    split; [reflexivity|]. now exists "".
  - destruct (upto_close_brace s) as [[b r]|]; [|discriminate].
    intros H; injection H as <- <-.
    destruct (IH _ _ eq_refl) as [-> (pre & -> & Hpre)].
    split; [reflexivity|]. exists (String c pre). split; [reflexivity|].
    cbn. unfold is_close_brace at 1. now rewrite Hc.
Qed.

(** A match is the beginning of the text; it begins with the keyword,
    and its only closing brace is its last character. *)
Lemma match_block_here_spec (kw s block rest : string) :
  exists_char is_close_brace kw = false ->
  match_block_here kw s = Some (block, rest) ->
  s = block +++ rest /\
  prefix kw block = true /\
  exists head, block = head +++ "}" /\
               exists_char is_close_brace head = false.
Proof.
  intros Hkw. unfold match_block_here.
  destruct (prefix kw s) eqn:Hprefix; [|discriminate].
  apply prefix_append in Hprefix.
  destruct (span is_space _) as [ws r1] eqn:E1.
  destruct (span is_word r1) as [name r2] eqn:E2.
  destruct (span is_space r2) as [ws' r3] eqn:E3.
  apply span_spec in E1 as [E1 Hws], E2 as [E2 Hname], E3 as [E3 Hws'].
  destruct ((ws =? "") || (name =? "")); [discriminate|].
  destruct r3 as [|c r4]; [discriminate|].
  destruct c as [[] [] [] [] [] [] [] []]; try discriminate.
  destruct (upto_close_brace r4) as [[body rest']|] eqn:E4; [|discriminate].
  intros H; injection H as <- <-.
  apply upto_close_brace_spec in E4 as [-> (pre & -> & Hpre)].
  repeat split.
  - rewrite Hprefix at 1. rewrite E1, E2, E3.
    rewrite !append_assoc. cbn [append]. now rewrite ?append_assoc.
  - apply prefix_of_append.
  - exists (kw +++ ws +++ name +++ ws' +++ "{" +++ pre).
    split; [rewrite ?append_assoc; cbn [append]; now rewrite ?append_assoc|].
    rewrite !exists_char_append, Hkw.
    cbn [append exists_char]. rewrite Hpre.
    rewrite (all_chars_exclude _ _ ws space_is_no_brace Hws).
    rewrite (all_chars_exclude _ _ name word_is_no_brace Hname).
    rewrite (all_chars_exclude _ _ ws' space_is_no_brace Hws').
    reflexivity.
Qed.

(** X10.  Each located block is a piece of the content that begins with the
    keyword and has one closing brace, its last character. *)
Theorem located_blocks (n : nat) (kw content block : string) :
  exists_char is_close_brace kw = false ->
  In block (match_blocks n kw content) ->
  (exists before after, content = before +++ block +++ after) /\
  prefix kw block = true /\
  (exists head, block = head +++ "}" /\
                exists_char is_close_brace head = false).
Proof.
  intros Hkw. revert content.
  induction n as [|n IH]; intros content; cbn [match_blocks]; [intros []|].
  destruct (match_block_here kw content) as [[b rest]|] eqn:E.
  - destruct (match_block_here_spec kw content b rest Hkw E)
      as (Hcontent & Hprefix & Hshape).
    intros [<-|Hin].
    + split; [|now split]. exists "", rest. exact Hcontent.
    + destruct (IH rest Hin) as ((before & after & Hrest) & H2 & H3).
      split; [|now split]. exists (b +++ before), after.
      now rewrite Hcontent, Hrest, append_assoc.
  - destruct content as [|c content]; [intros []|].
    intros Hin. destruct (IH content Hin) as ((before & after & Hrest) & H2 & H3).
    split; [|now split]. exists (String c before), after. cbn. now rewrite Hrest.
Qed.

Lemma located_blocks_witness :
  (exists before after, id_schema = before +++ id_schema +++ after) /\
  prefix "model" id_schema = true /\
  (exists head, id_schema = head +++ "}" /\
                exists_char is_close_brace head = false).
Proof.
  apply (located_blocks (S (String.length id_schema)) "model" id_schema
           id_schema).
  - vm_compute. reflexivity.
  - vm_compute. left. reflexivity.
Defined.

(** ** The fields and models of the Prisma adapter *)

Lemma match_field_spec (line : string) (fm : fieldMatch) :
  match_field line = Some fm ->
  fm_name fm <> "" /\ all_chars is_word (fm_name fm) = true /\
  fm_typeStr fm <> "".
Proof.
  unfold match_field.
  destruct (span is_word line) as [name r1] eqn:E1.
  destruct (span is_space r1) as [ws r2].
  destruct (span is_type_char r2) as [typeStr r3].
  destruct (String.eqb_spec name ""); [discriminate|].
  destruct (String.eqb_spec ws ""); [discriminate|].
  destruct (String.eqb_spec typeStr ""); [discriminate|]. cbn [orb].
  destruct (match r3 with String "?"%char r4 => (true, r4) | _ => (false, r3) end)
    as [optional attributes].
  destruct (exists_char is_line_terminator attributes); [discriminate|].
  intros H; injection H as <-. cbn.
  apply span_spec in E1 as [_ Hname]. now repeat split.
Qed.

Lemma truthy_string (s : string) : s <> "" -> truthy (VStr s) = true.
Proof. intros H. cbn. now destruct (String.eqb_spec s ""). Qed.

Lemma parseField_named (line : string) (f : field) :
  parseField line = Some f -> exists n, name f = VStr n /\ n <> "".
Proof.
  unfold parseField.
  destruct ((trim line =? "") || startsWith (trim line) "//"
            || startsWith (trim line) "@@"); [discriminate|].
  destruct (match_field (trim line)) as [fm|] eqn:Hfm; [|discriminate].
  apply match_field_spec in Hfm as (Hn & _ & _).
  intros H; injection H as <-. now exists (fm_name fm).
Qed.

(** X11.  What a parsed field line is: its name is an identifier, it has a
    type, and it is a reference exactly when it has a target, which is
    then its type too. *)
Theorem parseField_shape (line : string) (f : field) :
  parseField line = Some f ->
  (exists n, name f = VStr n /\ n <> "" /\ all_chars is_word n = true) /\
  truthy (type f) = true /\
  ((isReference f = VBool true /\
    exists t, referenceTo f = VStr t /\ type f = VStr t) \/
   (isReference f = VBool false /\ referenceTo f = VNull)).
Proof.
  unfold parseField.
  destruct ((trim line =? "") || startsWith (trim line) "//"
            || startsWith (trim line) "@@"); [discriminate|].
  destruct (match_field (trim line)) as [fm|] eqn:Hfm; [|discriminate].
  apply match_field_spec in Hfm as (Hn & Hword & Ht).
  intros H; injection H as <-.
  cbn [name type isReference referenceTo].
  split; [now exists (fm_name fm)|].
  destruct (endsWith (fm_typeStr fm) "[]"); cbn [negb andb].
  - rewrite andb_false_r. split; [reflexivity|]. now right.
  - rewrite andb_true_r. unfold or_else.
    destruct (truthy (lookup PRISMA_TYPE_MAP (fm_typeStr fm))) eqn:E;
      cbn [negb].
    + split; [exact E|]. now right.
    + split; [now apply truthy_string|]. left. split; [reflexivity|].
      now exists (fm_typeStr fm).
Qed.

Lemma parseField_shape_witness :
  (exists n, name category_parent_raw = VStr n /\ n <> "" /\
             all_chars is_word n = true) /\
  truthy (type category_parent_raw) = true /\
  ((isReference category_parent_raw = VBool true /\
    exists t, referenceTo category_parent_raw = VStr t /\
              type category_parent_raw = VStr t) \/
   (isReference category_parent_raw = VBool false /\
    referenceTo category_parent_raw = VNull)).
Proof.
  apply (parseField_shape "  parent Category?" category_parent_raw).
  vm_compute. reflexivity.
Defined.

Lemma match_keyword_name_nonempty (kw s n : string) :
  match_keyword_name kw s = Some n -> n <> "".
Proof.
  induction s as [|c s IH]; cbn [match_keyword_name].
  - destruct (prefix kw ""); [|discriminate].
    destruct (span is_space _) as [ws r1]. destruct (span is_word r1) as [nm r2].
    destruct (String.eqb_spec ws ""); [discriminate|].
    destruct (String.eqb_spec nm ""); [discriminate|]. cbn [orb].
    now intros H; injection H as <-.
  - destruct (prefix kw (String c s)).
    + destruct (span is_space _) as [ws r1].
      destruct (span is_word r1) as [nm r2].
      destruct (String.eqb_spec ws ""); [exact IH|].
      destruct (String.eqb_spec nm ""); [exact IH|]. cbn [orb].
      now intros H; injection H as <-.
    + exact IH.
Qed.

Lemma In_filter_some {A : Type} (a : A) (l : list (option A)) :
  In a (filter_some l) <-> In (Some a) l.
Proof.
  induction l as [|[b|] l IH]; cbn [filter_some In].
  - reflexivity.
  - rewrite IH. split; (intros [H|H]; [left; congruence|now right]).
  - rewrite IH. split; [now right|]. now intros [H|H].
Qed.

(** Every model the Prisma adapter gives is valid. *)
Lemma parseModel_valid (block : string) (path : value) (m : model) :
  parseModel block path = Some m -> valid (validateSchema m) = true.
Proof.
  unfold parseModel.
  destruct (match_keyword_name "model" _) as [n|] eqn:Hn; [|discriminate].
  intros H; injection H as <-. apply normalizeModel_valid_when.
  cbn [modelName fields_of fields]. split.
  - apply truthy_string. eapply match_keyword_name_nonempty, Hn.
  - apply Forall_forall. intros f Hf.
    apply In_filter_some, in_map_iff in Hf as (line & Hline & _).
    destruct (parseField_named line f Hline) as (nm & -> & Hnm).
    now apply truthy_string.
Qed.

Lemma validateModels_valid (ms : list model) :
  Core.vs_valid (Core.validateModels ms) = true <->
  Forall (fun m => valid (validateSchema m) = true) ms.
Proof.
  unfold Core.validateModels. cbn [Core.vs_valid].
  rewrite length_zero_nil. induction ms as [|m ms IH]; cbn [map filter].
  - split; [constructor|reflexivity].
  - cbn [Core.mv_validation]. destruct (valid (validateSchema m)) eqn:E;
      cbn [negb].
    + rewrite IH. split; [now constructor|]. intros H. now inversion H.
    + split; [discriminate|]. intros H. inversion H. congruence.
Qed.

Lemma marked_valid (m : model) :
  valid (validateSchema m) = true ->
  valid (validateSchema (marked m (fields_of m))) = true.
Proof.
  rewrite !validateSchema_valid_when. intros [Hname (fs & Hfs & Hall)].
  cbn [marked modelName fields]. split; [assumption|].
  eexists. split; [reflexivity|]. unfold fields_of. rewrite Hfs.
  rewrite Forall_map. eapply Forall_impl; [|exact Hall].
  intros f Hf. unfold markSelfReference.
  now destruct (truthy (isReference f) && strict_eq (referenceTo f) (modelName m)).
Qed.

Lemma prisma_models_valid (content : string) (schemaPath : value) :
  Forall (fun m => valid (validateSchema m) = true)
         (models (parsePrismaContent content schemaPath)).
Proof.
  apply Forall_forall. intros m Hm. cbn [parsePrismaContent models] in Hm.
  apply In_filter_some, in_map_iff in Hm as (block & Hblock & _).
  eapply parseModel_valid, Hblock.
Qed.

Lemma valid_models_stay_valid (ms : list model) :
  Forall (fun m => valid (validateSchema m) = true) ms ->
  exists ms',
    markSelfReferences ms = Ok ms' /\
    Core.vs_valid (Core.validateModels ms') = true.
Proof.
  intros Hvalid.
  assert (Hall : all_fields_present ms).
  { apply forallb_forall. intros m Hm. rewrite Forall_forall in Hvalid.
    specialize (Hvalid m Hm). apply validateSchema_valid_when in Hvalid
      as [_ (fs & -> & _)]. reflexivity. }
  eexists. split; [now apply markSelfReferences_marked|].
  apply validateModels_valid. rewrite Forall_map.
  eapply Forall_impl; [|exact Hvalid]. intros m. apply marked_valid.
Qed.

(** X12.  On a Prisma schema, whatever its content, the marking succeeds and
    the validation of the run finds nothing invalid. *)
Theorem prisma_models_pass_validation (content : string) (schemaPath : value) :
  exists ms,
    markSelfReferences (models (parsePrismaContent content schemaPath)) = Ok ms /\
    Core.vs_valid (Core.validateModels ms) = true.
Proof. apply valid_models_stay_valid, prisma_models_valid. Qed.

(** ** The fields of the Mongoose adapter *)

Lemma assoc_Forall (P : value -> Prop) (k : string) (v : value)
    (ps : list (string * value)) :
  Forall (fun kv => P (snd kv)) ps -> assoc k ps = Some v -> P v.
Proof.
  induction 1 as [|[k' x] ps Hx _ IH]; cbn [assoc]; [discriminate|].
  destruct (k =? k'); [|exact IH]. intros H; injection H as <-. exact Hx.
Qed.

(** No type information says array and enum at once. *)
Lemma extractFieldType_array_or_enum (fieldDef : value) :
  truthy (ti_isArray (extractFieldType fieldDef)) &&
  truthy (ti_isEnum (extractFieldType fieldDef)) = false.
Proof.
  induction fieldDef as [| |b|n|s|n s|l IH|props IH] using value_nested_ind;
    try reflexivity.
  - destruct l; reflexivity.
  - cbn [extractFieldType]. rewrite assoc_with_assoc.
    destruct (assoc "type" props) as [t|] eqn:Ht; cbn [option_map].
    + pose proof (assoc_Forall
                    (fun v => truthy (ti_isArray (extractFieldType v)) &&
                              truthy (ti_isEnum (extractFieldType v)) = false)
                    _ _ _ IH Ht) as IHt. cbn beta in IHt.
      destruct (truthy t).
      * now destruct (truthy (lookup props "ref")).
      * now destruct (truthy (lookup props "enum")).
    + now destruct (truthy (lookup props "enum")).
Qed.

Lemma truthy_or_else_false (v : value) :
  truthy (or_else v (VBool false)) = truthy v.
Proof. unfold or_else. now destruct (truthy v) eqn:E. Qed.

Lemma truthy_and_then_andb (x y : value) :
  truthy (and_then x y) = truthy x && truthy y.
Proof. unfold and_then. now destruct (truthy x) eqn:E. Qed.

Lemma parseSchemaFields_In (entries : list (string * value))
    (paths : list (string * value)) (f : field) :
  In f (parseSchemaFields (VObj entries) paths) ->
  exists fieldName fieldDef nested,
    In (fieldName, fieldDef) entries /\
    startsWith fieldName "_" = false /\
    f = schemaField fieldName fieldDef paths nested.
Proof.
  cbn [parseSchemaFields].
  induction entries as [|[k d] entries IH]; [intros []|].
  destruct (startsWith k "_") eqn:Hk.
  - intros H. destruct (IH H) as (k' & d' & n' & Hin & Hk' & ->).
    exists k', d', n'. repeat split; [now right|assumption].
  - intros [<-|H].
    + do 3 eexists. repeat split; [now left|assumption].
    + destruct (IH H) as (k' & d' & n' & Hin & Hk' & ->).
      exists k', d', n'. repeat split; [now right|assumption].
Qed.

(** X13.  No field of a Mongoose schema is an array and an enum at once, and
    none is an enum array: an array of enum descriptors is rendered as
    an array of its element type. *)
Theorem mongoose_fields_array_or_enum (entries paths : list (string * value))
    (f : field) :
  In f (parseSchemaFields (VObj entries) paths) ->
  truthy (isArray f) && truthy (isEnum f) = false /\
  truthy (isEnumArray f) = false.
Proof.
  intros H. apply parseSchemaFields_In in H as (k & d & n & _ & _ & ->).
  cbn [schemaField isArray isEnum isEnumArray].
  rewrite !truthy_or_else_false, truthy_and_then_andb.
  split; apply extractFieldType_array_or_enum.
Qed.

Lemma mongoose_fields_array_or_enum_witness :
  truthy (isArray posts_mongoose_field) && truthy (isEnum posts_mongoose_field)
    = false /\
  truthy (isEnumArray posts_mongoose_field) = false.
Proof.
  apply (mongoose_fields_array_or_enum [("posts", posts_definition)] []
           posts_mongoose_field).
  vm_compute. left. reflexivity.
Defined.

(** X14.  The fields of a schema are its keys, in their order, without those
    that begin with an underscore. *)
Theorem mongoose_field_names (entries paths : list (string * value)) :
  map name (parseSchemaFields (VObj entries) paths) =
  map VStr (filter (fun k => negb (startsWith k "_")) (map fst entries)).
Proof.
  cbn [parseSchemaFields].
  induction entries as [|[k d] entries IH]; [reflexivity|].
  cbn [map fst filter]. destruct (startsWith k "_"); cbn [negb map].
  - exact IH.
  - now rewrite <- IH.
Qed.

Lemma truthy_or_else_truthy (a b : value) :
  truthy b = true -> truthy (or_else a b) = true.
Proof. intros H. unfold or_else. now destruct (truthy a) eqn:E. Qed.

Lemma plainType_well_formed (t : value) :
  truthy t = true -> well_formed (plainType t).
Proof.
  intros H. unfold well_formed, plainType.
  cbn [ti_type ti_isArray ti_arrayOf ti_isEnum ti_enumValues ti_isReference
       ti_referenceTo truthy].
  repeat split; (assumption || discriminate).
Qed.

(** X15.  Whatever the descriptor, the type information has a type; what
    is an array has the type [array] and an element type; what is an
    enum has the type [string] and its values; and it is a reference
    exactly when it has a target. *)
Theorem extractFieldType_well_formed (fieldDef : value) :
  well_formed (extractFieldType fieldDef).
Proof.
  induction fieldDef as [| |b|n|s|n s|l IH|props IH] using value_nested_ind;
    try (now apply plainType_well_formed);
    try (apply plainType_well_formed; now apply truthy_or_else_truthy).
  - destruct l as [|first rest].
    + unfold well_formed. cbn. repeat split; (reflexivity || discriminate).
    + inversion IH as [|? ? (Htype & _ & _ & Href) _]; subst.
      unfold well_formed.
      cbn [extractFieldType ti_type ti_isArray ti_arrayOf ti_isEnum
           ti_enumValues ti_isReference ti_referenceTo].
      split; [reflexivity|]. split; [intros _; now split|].
      split; [discriminate|exact Href].
  - cbn [extractFieldType]. rewrite assoc_with_assoc.
    assert (Hplain :
      well_formed (if truthy (lookup props "enum")
                   then {| ti_type := VStr STANDARD_TYPES.STRING;
                           ti_isArray := VUndefined;
                           ti_arrayOf := VUndefined;
                           ti_isReference := VUndefined;
                           ti_referenceTo := VUndefined;
                           ti_isEnum := VBool true;
                           ti_enumValues := lookup props "enum" |}
                   else plainType (VStr STANDARD_TYPES.ANY))).
    { destruct (truthy (lookup props "enum")) eqn:He;
        [|now apply plainType_well_formed].
      unfold well_formed.
      cbn [ti_type ti_isArray ti_arrayOf ti_isEnum ti_enumValues
           ti_isReference ti_referenceTo truthy].
      repeat split; try discriminate; try reflexivity; exact He. }
    destruct (assoc "type" props) as [t|] eqn:Ht; cbn [option_map];
      [|exact Hplain].
    pose proof (assoc_Forall (fun v => well_formed (extractFieldType v)) _ _ _ IH Ht) as Ht'.
    destruct (truthy t); [|exact Hplain].
    destruct (truthy (lookup props "ref")) eqn:Hr; [|exact Ht'].
    destruct Ht' as (Htype & Harr & Henum & Href).
    unfold well_formed.
    cbn [ti_type ti_isArray ti_arrayOf ti_isEnum ti_enumValues
         ti_isReference ti_referenceTo truthy].
    repeat split; try assumption; try (now apply Harr); try (now apply Henum);
      intros _; exact Hr.
Qed.

(** ** The dependencies of a model *)

Lemma set_add_NoDup (x : value) (s : list value) :
  NoDup s -> NoDup (set_add x s).
Proof.
  intros H. unfold set_add. destruct (includes_value s x) eqn:E; [assumption|].
  apply NoDup_app; [assumption|repeat constructor; intros []|].
  intros y Hy [<-|[]]. apply includes_value_In in Hy. congruence.
Qed.

Lemma set_add_In (x y : value) (s : list value) :
  In y (set_add x s) -> In y s \/ y = x.
Proof.
  unfold set_add. destruct (includes_value s x); [now left|].
  intros H. apply in_app_or in H as [H|[<-|[]]]; [now left|now right].
Qed.

Lemma add_dependency_in_order (enumNames : list value) (m : model)
    (x : value) (d : dependencies) :
  strict_eq x (modelName m) = false ->
  dependencies_in_order enumNames m d ->
  dependencies_in_order enumNames m (add_dependency enumNames x d).
Proof.
  intros Hself (He & Hm & Hine & Hinm). unfold add_dependency.
  destruct (includes_value enumNames x) eqn:E; cbn [dep_enums dep_models].
  - split; [now apply set_add_NoDup|]. split; [assumption|].
    split; [|assumption].
    intros y Hy. apply set_add_In in Hy as [Hy| ->]; [now apply Hine|].
    split; [now apply includes_value_In|assumption].
  - split; [assumption|]. split; [now apply set_add_NoDup|].
    split; [assumption|].
    intros y Hy. apply set_add_In in Hy as [Hy| ->]; [now apply Hinm|].
    split; [|assumption]. intros Hin. apply includes_value_In in Hin. congruence.
Qed.

Lemma collect_field_in_order (enumNames : list value) (m : model)
    (d : dependencies) (f : field) :
  dependencies_in_order enumNames m d ->
  dependencies_in_order enumNames m (collect_field enumNames m d f).
Proof.
  intros H. unfold collect_field.
  assert (H1 : dependencies_in_order enumNames m
    (if truthy (and_then (isArray f) (arrayOf f))
     then if negb (includes_value primitives (arrayOf f)) &&
             negb (strict_eq (arrayOf f) (modelName m))
          then add_dependency enumNames (arrayOf f) d else d
     else if truthy (type f) && negb (includes_value primitives (type f)) &&
             negb (strict_eq (type f) (modelName m))
          then add_dependency enumNames (type f) d else d)).
  { destruct (truthy (and_then (isArray f) (arrayOf f))).
    - destruct (strict_eq (arrayOf f) (modelName m)) eqn:E;
        [now rewrite andb_false_r|].
      destruct (negb (includes_value primitives (arrayOf f))); [|assumption].
      now apply add_dependency_in_order.
    - destruct (strict_eq (type f) (modelName m)) eqn:E;
        [now rewrite andb_false_r|].
      destruct (truthy (type f) && negb (includes_value primitives (type f)));
        [|assumption].
      now apply add_dependency_in_order. }
  destruct (strict_eq (referenceTo f) (modelName m)) eqn:E;
    [now rewrite andb_false_r|].
  destruct (truthy (referenceTo f) && negb (strict_eq (referenceTo f) (type f)));
    [|assumption].
  now apply add_dependency_in_order.
Qed.

Lemma enum_names_are_names (x : value) (es : list enumDef) :
  In x (fold_left (fun s e => set_add (enumName e) s) es []) ->
  In x (map enumName es).
Proof. intros H. now apply enum_names_In in H as [[]|H]. Qed.

Lemma set_add_primitive (x : value) (s : list value) :
  is_primitive x = true ->
  forallb is_primitive s = true ->
  forallb is_primitive (set_add x s) = true.
Proof.
  intros Hx Hs. unfold set_add. destruct (includes_value s x); [assumption|].
  rewrite forallb_app, Hs. cbn. now rewrite Hx.
Qed.

Lemma add_dependency_primitive (enumNames : list value) (x : value)
    (d : dependencies) :
  is_primitive x = true ->
  forallb is_primitive (dep_enums d ++ dep_models d) = true ->
  forallb is_primitive
    (dep_enums (add_dependency enumNames x d) ++
     dep_models (add_dependency enumNames x d)) = true.
Proof.
  intros Hx. rewrite !forallb_app. intros H.
  apply andb_true_iff in H as [He Hm]. unfold add_dependency.
  destruct (includes_value enumNames x); cbn [dep_enums dep_models].
  - now rewrite set_add_primitive.
  - now rewrite He, set_add_primitive.
Qed.

Lemma collect_field_primitive (enumNames : list value) (m : model)
    (d : dependencies) (f : field) :
  primitive_names f = true ->
  forallb is_primitive (dep_enums d ++ dep_models d) = true ->
  forallb is_primitive
    (dep_enums (collect_field enumNames m d f) ++
     dep_models (collect_field enumNames m d f)) = true.
Proof.
  unfold primitive_names. intros Hf Hd.
  apply andb_true_iff in Hf as [Hf Href].
  apply andb_true_iff in Hf as [Htype Harr].
  unfold collect_field.
  repeat match goal with
         | |- context [if ?c then _ else _] => destruct c
         end;
    repeat apply add_dependency_primitive; assumption.
Qed.

(** X16.  On fields whose names are primitive values (strings, as the
    adapters give them): the dependencies of a model are primitive
    values again, none occurs twice, none is the name of the model
    itself, and a name is among the enums exactly when it is the name of
    an enum definition. *)
Theorem dependencies_are_sets (m : model) (allEnums : list enumDef)
    (d : dependencies) :
  forallb primitive_names (fields_of m) = true ->
  collectTypeDependencies m allEnums = Ok d ->
  forallb is_primitive (dep_enums d ++ dep_models d) = true /\
  NoDup (dep_enums d) /\ NoDup (dep_models d) /\
  (forall x, In x (dep_enums d) ->
             In x (map enumName allEnums) /\
             strict_eq x (modelName m) = false) /\
  (forall x, In x (dep_models d) ->
             ~ In x (dep_enums d) /\ strict_eq x (modelName m) = false).
Proof.
  unfold collectTypeDependencies, fields_of.
  destruct (fields m) as [| |fs]; try discriminate.
  intros Hprim H; injection H as <-.
  set (enumNames := fold_left (fun s e => set_add (enumName e) s) allEnums []).
  split.
  { assert (Hinv : forall d0,
               forallb is_primitive (dep_enums d0 ++ dep_models d0) = true ->
               forallb is_primitive
                 (dep_enums (fold_left (collect_field enumNames m) fs d0) ++
                  dep_models (fold_left (collect_field enumNames m) fs d0))
               = true).
    { induction fs as [|f fs IH]; intros d0 H; cbn [fold_left];
        [assumption|].
      cbn [forallb] in Hprim. apply andb_true_iff in Hprim as [Hf Hfs].
      apply (IH Hfs). now apply collect_field_primitive. }
    now apply Hinv. }
  assert (Hinv : forall fs d0,
             dependencies_in_order enumNames m d0 ->
             dependencies_in_order enumNames m
               (fold_left (collect_field enumNames m) fs d0)).
  { clear. induction fs as [|f fs IH]; intros d0 H; cbn [fold_left];
      [assumption|]. now apply IH, collect_field_in_order. }
  destruct (Hinv fs {| dep_enums := []; dep_models := [] |})
    as (He & Hm & Hine & Hinm).
  { unfold dependencies_in_order; cbn [dep_enums dep_models].
    split; [apply NoDup_nil|split; [apply NoDup_nil|split; intros y []]]. }
  repeat split; try assumption.
  - now apply enum_names_are_names, Hine.
  - now apply Hine.
  - intros Hx. apply Hine in Hx as [Hx _]. now apply (Hinm x).
  - now apply Hinm.
Qed.

Lemma dependencies_are_sets_witness :
  forallb is_primitive
    (dep_enums author_dependencies ++ dep_models author_dependencies) = true /\
  NoDup (dep_enums author_dependencies) /\
  NoDup (dep_models author_dependencies) /\
  (forall x, In x (dep_enums author_dependencies) ->
             In x (map enumName []) /\
             strict_eq x (modelName author_model) = false) /\
  (forall x, In x (dep_models author_dependencies) ->
             ~ In x (dep_enums author_dependencies) /\
             strict_eq x (modelName author_model) = false).
Proof.
  apply (dependencies_are_sets author_model [] author_dependencies);
    vm_compute; reflexivity.
Defined.

(** ** Optional fields *)

(** X17.  A field that is not required is rendered as the same field would
    be if it were, with the null union after the type and the optional
    marker after the name. *)
Theorem optional_field_rendering (f : field) (v : value) (t : value)
    (includeComments readonly : value) (allModels : nullable (list model)) :
  truthy v = false ->
  truthy (and_then includeComments (description f)) = false ->
  fieldToTypeScript (with_required (VBool true) f) allModels = Ok t ->
  fieldToTypeScript (with_required v f) allModels
    = Ok (VStr (toString t +++ " | null")) /\
  field_lines includeComments readonly allModels (with_required (VBool true) f)
    = Ok ["  " +++ (if truthy readonly then "readonly " else "") +++
          toString (name f) +++ ": " +++ toString t +++ ";"] /\
  field_lines includeComments readonly allModels (with_required v f)
    = Ok ["  " +++ (if truthy readonly then "readonly " else "") +++
          toString (name f) +++ "?: " +++ toString t +++ " | null;"].
Proof.
  intros Hv Hdesc Hrender.
  assert (Hopt : fieldToTypeScript (with_required v f) allModels
                 = Ok (VStr (toString t +++ " | null"))).
  { rewrite fieldToTypeScript_equation in Hrender |- *.
    cbn [with_required isEnum enumValues isArray arrayOf isEnumArray
         isReference referenceTo nested type required truthy] in Hrender |- *.
    rewrite Hv.
    match type of Hrender with
    | bind ?r _ = _ => destruct r as [ts|e]; cbn [bind] in Hrender |- *
    end; [|discriminate].
    now injection Hrender as ->. }
  split; [exact Hopt|]. unfold field_lines.
  rewrite Hopt, Hrender.
  cbn [bind with_required required description name truthy].
  rewrite Hv, Hdesc. cbn [app toString].
  split; [reflexivity|].
  now rewrite !append_assoc.
Qed.

Lemma optional_field_rendering_witness :
  fieldToTypeScript (with_required (VBool false) (bare_field "email" "string"))
                    Undefined
    = Ok (VStr (toString (VStr "string") +++ " | null")) /\
  field_lines (VBool true) (VBool false) Undefined
              (with_required (VBool true) (bare_field "email" "string"))
    = Ok ["  " +++ (if truthy (VBool false) then "readonly " else "") +++
          toString (name (bare_field "email" "string")) +++ ": " +++
          toString (VStr "string") +++ ";"] /\
  field_lines (VBool true) (VBool false) Undefined
              (with_required (VBool false) (bare_field "email" "string"))
    = Ok ["  " +++ (if truthy (VBool false) then "readonly " else "") +++
          toString (name (bare_field "email" "string")) +++ "?: " +++
          toString (VStr "string") +++ " | null;"].
Proof.
  apply (optional_field_rendering (bare_field "email" "string") (VBool false)
           (VStr "string") (VBool true) (VBool false) Undefined);
    vm_compute; reflexivity.
Defined.

(** ** The document of a model *)

Lemma field_lines_count (includeComments readonly : value)
    (allModels : nullable (list model)) (fs : list field) :
  forallb enum_values_are_arrays fs = true ->
  exists body,
    mapM (field_lines includeComments readonly allModels) fs = Ok body /\
    (List.length fs <= List.length (concat body) <= 2 * List.length fs)%nat.
Proof.
  induction fs as [|f fs IH]; cbn [forallb mapM].
  - intros _. exists []. split; [reflexivity|cbn; lia].
  - intros H. apply andb_true_iff in H as [Hf Hfs].
    destruct (IH Hfs) as (body & -> & Hlen).
    unfold field_lines at 1.
    destruct (fieldToTypeScript_total allModels f Hf) as [t ->]. cbn [bind].
    eexists. split; [reflexivity|].
    cbn [concat]. rewrite !length_app. cbn [List.length].
    destruct (truthy (and_then includeComments (description f)));
      cbn [List.length]; lia.
Qed.

Lemma mapM_Forall2 {A B : Type} (g : A -> result B) (l : list A)
    (bs : list B) :
  mapM g l = Ok bs -> Forall2 (fun a b => g a = Ok b) l bs.
Proof.
  revert bs. induction l as [|a l IH]; intros bs; cbn [mapM].
  - intros H; injection H as <-. constructor.
  - destruct (g a) as [b|] eqn:Hb; cbn [bind]; [|discriminate].
    destruct (mapM g l) as [bs'|]; cbn [bind]; [|discriminate].
    intros H; injection H as <-. constructor; [exact Hb|now apply IH].
Qed.

Lemma import_lines_are_imports (deps : dependencies) :
  forallb is_import_line (import_lines deps) = true.
Proof.
  unfold import_lines. rewrite !forallb_app.
  repeat (apply andb_true_iff; split).
  - now destruct (0 <? List.length (dep_enums deps))%nat.
  - induction (dep_models deps) as [|x l IH]; [reflexivity|].
    cbn [map forallb]. now rewrite IH.
  - now destruct ((0 <? List.length (dep_enums deps))%nat ||
                  (0 <? List.length (dep_models deps))%nat).
Qed.

(** X18.  The document of a model that has its fields, with [enumValues] an
    array wherever it is set, is rendered without an exception.  Its
    lines are the import lines, of which there are none outside
    standalone mode, then lines of comment, then the declaration of the
    interface under the name of the model, then the lines of each field
    in order, one or two for each, then the closing brace. *)
Theorem generateInterface_succeeds (m : model) (opts : options)
    (fs : list field) :
  fields m = Val fs ->
  forallb enum_values_are_arrays fs = true ->
  exists (imports comments : list string) (bodies : list (list string)),
    generateInterface m opts
      = Ok (join nl
              (imports ++ comments ++
               [toString (default_to (VStr "export") (exportType opts)) +++
                " interface " +++ toString (modelName m) +++ " {"] ++
               concat bodies ++ ["}"])) /\
    forallb is_import_line imports = true /\
    (truthy (default_to (VBool false) (standalone opts)) = false ->
     imports = []) /\
    forallb is_comment_line comments = true /\
    Forall2 (fun f lines =>
               field_lines (default_to (VBool true) (includeComments opts))
                           (default_to (VBool false) (readonly opts))
                           (allModels opts) f = Ok lines)
            fs bodies /\
    (List.length fs <= List.length (concat bodies) <= 2 * List.length fs)%nat.
Proof.
  intros Hfs Hall. unfold generateInterface, interface_lines.
  unfold collectTypeDependencies. rewrite Hfs. cbn [bind].
  destruct (field_lines_count
              (default_to (VBool true) (includeComments opts))
              (default_to (VBool false) (readonly opts))
              (allModels opts) fs Hall) as (bodies & Hbodies & Hlen).
  rewrite Hbodies.
  destruct (truthy (default_to (VBool false) (standalone opts)));
    cbn [bind]; do 2 eexists; exists bodies;
    (split; [reflexivity|]).
  - split; [apply import_lines_are_imports|]. split; [discriminate|].
    split; [|split; [now apply mapM_Forall2|exact Hlen]].
    rewrite forallb_app.
    now destruct (truthy (and_then _ (modelDescription m))),
                 (truthy (default_to (VBool true) (includeComments opts))).
  - split; [reflexivity|]. split; [reflexivity|].
    split; [|split; [now apply mapM_Forall2|exact Hlen]].
    rewrite forallb_app.
    now destruct (truthy (and_then _ (modelDescription m))),
                 (truthy (default_to (VBool true) (includeComments opts))).
Qed.

Lemma generateInterface_succeeds_witness :
  exists (imports comments : list string) (bodies : list (list string)),
    generateInterface author_model standalone_options
      = Ok (join nl
              (imports ++ comments ++
               [toString (default_to (VStr "export")
                                     (exportType standalone_options)) +++
                " interface " +++ toString (modelName author_model) +++ " {"]
               ++ concat bodies ++ ["}"])) /\
    forallb is_import_line imports = true /\
    (truthy (default_to (VBool false) (standalone standalone_options)) = false
     -> imports = []) /\
    forallb is_comment_line comments = true /\
    Forall2 (fun f lines =>
               field_lines
                 (default_to (VBool true) (includeComments standalone_options))
                 (default_to (VBool false) (readonly standalone_options))
                 (allModels standalone_options) f = Ok lines)
            (fields_of author_model) bodies /\
    (List.length (fields_of author_model) <= List.length (concat bodies)
     <= 2 * List.length (fields_of author_model))%nat.
Proof.
  apply (generateInterface_succeeds author_model standalone_options
           (fields_of author_model)); vm_compute; reflexivity.
Defined.

(** ** The run *)

(** One step of taking a run apart: the outcome of the first scrutinee
    that is not itself a case distinction. *)
Ltac run_step :=
  match goal with
  | |- context [match ?x with _ => _ end] =>
      lazymatch x with
      | context [match _ with _ => _ end] => fail
      | _ => destruct x eqn:?
      end
  end.

Ltac run_cases :=
  unfold Core.generateTypes, Core.generateTypes_body, Core.and_next,
    Core.pure, Core.write;
  repeat (cbn [fst snd app]; run_step).

(** X19.  A run that ends before the writing, because no ORM, no model or no
    output path was found or because the validation failed, has called
    the writer not once. *)
Theorem failed_runs_write_nothing (w : Core.world) (c : Core.config) :
  match fst (Core.generateTypes w c) with
  | Core.Failed _ | Core.ValidationFailed _ => snd (Core.generateTypes w c) = []
  | _ => True
  end.
Proof.
  run_cases; cbn [fst snd app]; try exact I; try reflexivity.
Qed.

Lemma detectORM_names (w : Core.world) (root orm : value) :
  Core.detectORM w root = Ok orm -> truthy orm = true ->
  orm = VStr "prisma" \/ orm = VStr "mongoose".
Proof.
  unfold Core.detectORM.
  destruct (Core.detectPrisma w root) as [p|]; cbn [bind]; [|discriminate].
  destruct (truthy p); [intros H; injection H as <-; now left|].
  destruct (Core.detectMongoose w root) as [g|]; cbn [bind]; [|discriminate].
  destruct (truthy g); intros H; injection H as <-; [now right|discriminate].
Qed.

Lemma generateTypesForModels_from (ms : list model) (opts : options)
    (gs : list Core.generatedModel) :
  Core.generateTypesForModels ms opts = Ok gs ->
  map Core.generated_from gs = ms /\
  mapM (fun m => generateInterface m opts) ms = Ok (map Core.generatedCode gs).
Proof.
  unfold Core.generateTypesForModels. revert gs.
  induction ms as [|m ms IH]; intros gs; cbn [mapM bind].
  - intros H; injection H as <-. now split.
  - destruct (generateInterface m opts) as [code|] eqn:Hcode; cbn [bind];
      [|discriminate].
    destruct (mapM _ ms) as [gs'|]; cbn [bind]; [|discriminate].
    intros H; injection H as <-. destruct (IH gs' eq_refl) as [E1 E2].
    cbn [map Core.generated_from Core.generatedCode]. rewrite E1.
    split; [reflexivity|]. now rewrite E2.
Qed.

Lemma markSelfReferences_names (ms ms' : list model) :
  markSelfReferences ms = Ok ms' -> map modelName ms' = map modelName ms.
Proof.
  intros H.
  destruct (forallb (fun m => present (fields m)) ms) eqn:E.
  - rewrite (markSelfReferences_marked ms E) in H. injection H as <-.
    rewrite map_map. reflexivity.
  - now rewrite (markSelfReferences_throws ms E) in H.
Qed.

Lemma environment_at_same (w : Core.world) (i j : nat) :
  Core.clock w i = Core.clock w j ->
  Core.environment_at w i = Core.environment_at w j.
Proof. unfold Core.environment_at. now intros ->. Qed.

(** X20.  What a successful run reports and what it has written.  The ORM is
    one of the two, the names are those of the models the adapter gave,
    in their order, and there is at least one.  In separate mode the
    writer was called twice, for the models and for the index of their
    names, and no content is reported; otherwise once, for one file at
    a path that is set, and the content reported is the text written
    when the clock read the same at both renderings. *)
Theorem success_report (w : Core.world) (c : Core.config) (orm : value)
    (n : nat) (out : value) (names : list value) (content : nullable string)
    (log : list Core.writeRequest) :
  Core.generateTypes w c = (Core.Succeeded orm n out names content, log) ->
  (orm = VStr "prisma" \/ orm = VStr "mongoose") /\
  (exists found,
     Core.parseSchemas w orm (default_to (Core.cwd w) (Core.projectRoot c)) c
       = Ok found /\
     names = map modelName (models found)) /\
  n = List.length names /\ (0 < n)%nat /\ out = Core.outputPath c /\
  if strict_eq (default_to (VStr "single") (Core.outputMode c)) (VStr "separate")
  then content = Null /\
       exists gs p,
         log = [Core.WriteTypesByModel gs out;
                Core.WriteSingleFile (generateIndexFile names Undefined) p] /\
         map (fun g => modelName (Core.generated_from g)) gs = names
  else truthy out = true /\
       exists written p text,
         log = [Core.WriteSingleFile written p] /\ content = Val text /\
         (Core.clock w 0 = Core.clock w 1 -> text = written).
Proof.
  run_cases; cbn [fst snd app]; intros H; try discriminate H;
    injection H as <- <- <- <- <- <-;
    lazymatch goal with
    | Horm : Core.detectORM _ _ = Ok ?a, Ht : negb (truthy ?a) = false,
      Hparse : Core.parseSchemas _ _ _ _ = Ok ?found,
      Hlen : (_ =? 0)%nat = false,
      Hmark : markSelfReferences _ = Ok ?ms |- _ =>
        apply negb_false_iff in Ht;
        apply Nat.eqb_neq in Hlen;
        pose proof (markSelfReferences_names _ _ Hmark) as Hnames;
        assert (Hn : List.length ms = List.length (models found))
          by (rewrite <- (length_map modelName ms), Hnames; apply length_map);
        split; [exact (detectORM_names _ _ _ Horm Ht)|];
        split; [exists found; split; [exact Hparse|exact Hnames]|];
        split; [now rewrite length_map|];
        split; [lia|];
        split; [reflexivity|]
    end.
  - split; [reflexivity|]. do 2 eexists. split; [reflexivity|].
    match goal with
    | Hgen : Core.generateTypesForModels _ _ = Ok _ |- _ =>
        pose proof (generateTypesForModels_from _ _ _ Hgen) as [Hfrom _]
    end.
    rewrite <- map_map. now rewrite Hfrom.
  - match goal with
    | Hout : negb (truthy (Core.outputPath _)) = false |- _ =>
        apply negb_false_iff in Hout
    end.
    split; [assumption|]. do 3 eexists. split; [reflexivity|].
    split; [reflexivity|]. intros Hclock.
    rewrite (environment_at_same w 0 1 Hclock) in *. congruence.
  - match goal with
    | Hout : negb (truthy (Core.outputPath _)) = false |- _ =>
        apply negb_false_iff in Hout
    end.
    split; [assumption|]. do 3 eexists. split; [reflexivity|].
    split; [reflexivity|]. intros Hclock.
    rewrite (environment_at_same w 0 1 Hclock) in *. congruence.
Qed.

Lemma success_report_witness :
  (VStr "prisma" = VStr "prisma" \/ VStr "prisma" = VStr "mongoose") /\
  (exists found,
     Core.parseSchemas blog_project (VStr "prisma")
       (default_to (Core.cwd blog_project) (Core.projectRoot types_config))
       types_config = Ok found /\
     [VStr "Author"; VStr "Book"] = map modelName (models found)) /\
  2%nat = List.length [VStr "Author"; VStr "Book"] /\ (0 < 2)%nat /\
  VStr "./types" = Core.outputPath types_config /\
  if strict_eq (default_to (VStr "single") (Core.outputMode types_config))
               (VStr "separate")
  then Val blog_text = Null /\
       exists gs p,
         blog_log
           = [Core.WriteTypesByModel gs (VStr "./types");
              Core.WriteSingleFile
                (generateIndexFile [VStr "Author"; VStr "Book"] Undefined) p] /\
         map (fun g => modelName (Core.generated_from g)) gs
           = [VStr "Author"; VStr "Book"]
  else truthy (VStr "./types") = true /\
       exists written p text,
         blog_log = [Core.WriteSingleFile written p] /\
         Val blog_text = Val text /\
         (Core.clock blog_project 0 = Core.clock blog_project 1 ->
          text = written).
Proof.
  apply (success_report blog_project types_config (VStr "prisma") 2
           (VStr "./types") [VStr "Author"; VStr "Book"] (Val blog_text)
           blog_log).
  vm_compute. reflexivity.
Defined.

Lemma detectORM_prisma (w : Core.world) (root p : value) :
  Core.detectPrisma w root = Ok p -> truthy p = true ->
  Core.detectORM w root = Ok (VStr "prisma").
Proof. unfold Core.detectORM. intros -> Ht. cbn [bind]. now rewrite Ht. Qed.

Lemma parseSchemas_prisma (w : Core.world) (root : value) (c : Core.config)
    (found : parsed) :
  Core.parseSchemas w (VStr "prisma") root c = Ok found ->
  exists content schemaPath, found = parsePrismaContent content schemaPath.
Proof.
  unfold Core.parseSchemas. cbn [strict_eq String.eqb Ascii.eqb Bool.eqb].
  destruct (Core.findPrismaSchema w root) as [schemaPath|]; cbn [bind];
    [|discriminate].
  destruct (truthy schemaPath); [|discriminate]. unfold Core.parsePrismaSchema.
  destruct (Core.readFile w schemaPath) as [content|]; [|discriminate].
  intros H; injection H as <-. now exists content, schemaPath.
Qed.

(** X21.  Where Prisma is detected, a run never ends in the report of a
    failed validation: every model the Prisma adapter gives has a name
    and fields with a name and a type. *)
Theorem prisma_runs_pass_validation (w : Core.world) (c : Core.config)
    (p : value) :
  Core.detectPrisma w (default_to (Core.cwd w) (Core.projectRoot c)) = Ok p ->
  truthy p = true ->
  validation_failed (fst (Core.generateTypes w c)) = false.
Proof.
  intros Hp Ht. pose proof (detectORM_prisma _ _ _ Hp Ht) as Horm.
  unfold Core.generateTypes, Core.generateTypes_body, Core.and_next at 1,
    Core.pure at 1.
  rewrite Horm. cbn [truthy negb String.eqb].
  unfold Core.and_next at 1, Core.pure at 1.
  destruct (Core.parseSchemas _ _ _ _) as [found|] eqn:Hparse; [|reflexivity].
  apply parseSchemas_prisma in Hparse as (content & schemaPath & ->).
  destruct (valid_models_stay_valid _ (prisma_models_valid content schemaPath))
    as (ms & Hmark & Hvalid).
  unfold Core.and_next, Core.pure, Core.write. rewrite Hmark, Hvalid.
  cbn [negb].
  repeat (cbn [fst snd app]; run_step); reflexivity.
Qed.

Lemma prisma_runs_pass_validation_witness :
  validation_failed (fst (Core.generateTypes blog_project types_config))
  = false.
Proof.
  apply (prisma_runs_pass_validation blog_project types_config (VBool true));
    vm_compute; reflexivity.
Defined.
